(** * Option premium calculator: pricing engine, payoff curve, volatility feed

    A shallow embedding of the calculator's TypeScript core:

    - [normalCDF], [normalPDF], [calculateOptionPremium], [calculateGreeks],
      [dateToTimeToExpiry], [durationToTimeToExpiry]  (the Black-Scholes
      utility module);
    - [generateData]  (the payoff graph component);
    - [fetchDVOLData] (the volatility feed of the calculator component).

    The functions are written once, over an interface [JSNumber] of the
    operations the source applies to JavaScript numbers, and read under two
    interpretations of that interface:

    - [Exact]: numbers are real numbers and every operation is the
      mathematical one (no rounding, no overflow);
    - [Binary64]: numbers are IEEE 754 binary64 values, as in a JavaScript
      engine, computed by the kernel's primitive floats.  [Math.exp] and
      [Math.log], which ECMA-262 leaves implementation-approximated, are a
      parameter constrained by the results the standard fixes. *)

From Stdlib Require Import QArith ZArith List Bool Lia.
From Stdlib Require Import Reals Lra Psatz.
From Stdlib Require Floats.
From Stdlib Require Import String Ascii.
Import ListNotations.

Set Warnings "-inexact-float,-register-all".

(** ** The number interface *)

(** What the source does with a [number]: literals, the four operations,
    unary minus, the comparisons [<] and [<=], the [Math] functions it
    calls, and [Number(x.toFixed(2))].  The one law relates the two
    comparisons at [0]: a number above [0] is not [<= 0] (so is it for real
    numbers and for binary64 values, [NaN] included). *)
Class JSNumber (num : Type) : Type := {
  lit : Q -> num;
  nadd : num -> num -> num;
  nsub : num -> num -> num;
  nmul : num -> num -> num;
  ndiv : num -> num -> num;
  nneg : num -> num;
  nltb : num -> num -> bool;
  nleb : num -> num -> bool;
  Math_abs : num -> num;
  Math_sqrt : num -> num;
  Math_max : num -> num -> num;
  Math_PI : num;
  toFixed2 : num -> num;
  positive_not_le : forall x, nltb (lit 0) x = true -> nleb x (lit 0) = false
}.

(** The two [Math] functions whose values the language standard does not
    pin down. *)
Class JSMath (num : Type) : Type := {
  Math_exp : num -> num;
  Math_log : num -> num
}.

Arguments lit {num _} q%_Q.

Declare Scope js_scope.
Delimit Scope js_scope with js.
Notation "x + y" := (nadd x y) : js_scope.
Notation "x - y" := (nsub x y) : js_scope.
Notation "x * y" := (nmul x y) : js_scope.
Notation "x / y" := (ndiv x y) : js_scope.
Notation "- x" := (nneg x) : js_scope.
Notation "x <? y" := (nltb x y) : js_scope.
Notation "x <=? y" := (nleb x y) : js_scope.

(** ** The Black-Scholes utility module *)

Section BlackScholes.
Context {num : Type} `{JSNumber num} `{JSMath num}.
Local Open Scope js_scope.

(** Standard normal cumulative distribution function. *)
Definition normalCDF (x : num) : num :=
  let a1 := lit 0.254829592 in
  let a2 := lit (-0.284496736) in
  let a3 := lit 1.421413741 in
  let a4 := lit (-1.453152027) in
  let a5 := lit 1.061405429 in
  let p := lit 0.3275911 in
  let sign := if x <? lit 0 then lit (-1) else lit 1 in
  let x := Math_abs x / Math_sqrt (lit 2) in
  let t := lit 1 / (lit 1 + p * x) in
  let erf := lit 1 - ((((a5 * t + a4) * t + a3) * t + a2) * t + a1) * t * Math_exp (- x * x) in
  lit 0.5 * (lit 1 + sign * erf).

(** Standard normal probability density function. *)
Definition normalPDF (x : num) : num :=
  Math_exp (- lit 0.5 * x * x) / Math_sqrt (lit 2 * Math_PI).

(** The guard shared by the premium and the Greeks. *)
Definition invalidInputs (spotPrice strikePrice timeToExpiry volatility : num) : bool :=
  (spotPrice <=? lit 0) || (strikePrice <=? lit 0)
  || (timeToExpiry <=? lit 0) || (volatility <=? lit 0).

(** Black-Scholes-Merton premium of a European option. *)
Definition calculateOptionPremium
    (spotPrice strikePrice timeToExpiry volatility riskFreeRate : num)
    (isCall : bool) : num :=
  if invalidInputs spotPrice strikePrice timeToExpiry volatility then lit 0
  else
    let d1 := (Math_log (spotPrice / strikePrice)
               + (riskFreeRate + lit 0.5 * volatility * volatility) * timeToExpiry)
              / (volatility * Math_sqrt timeToExpiry) in
    let d2 := d1 - volatility * Math_sqrt timeToExpiry in
    if isCall then
      spotPrice * normalCDF d1
      - strikePrice * Math_exp (- riskFreeRate * timeToExpiry) * normalCDF d2
    else
      strikePrice * Math_exp (- riskFreeRate * timeToExpiry) * normalCDF (- d2)
      - spotPrice * normalCDF (- d1).

Record Greeks : Type := {
  delta : num;
  gamma : num;
  theta : num;
  vega : num;
  rho : num
}.

(** All five Greeks. *)
Definition calculateGreeks
    (spotPrice strikePrice timeToExpiry volatility riskFreeRate : num)
    (isCall : bool) : Greeks :=
  if invalidInputs spotPrice strikePrice timeToExpiry volatility then
    {| delta := lit 0; gamma := lit 0; theta := lit 0; vega := lit 0; rho := lit 0 |}
  else
    let d1 := (Math_log (spotPrice / strikePrice)
               + (riskFreeRate + lit 0.5 * volatility * volatility) * timeToExpiry)
              / (volatility * Math_sqrt timeToExpiry) in
    let d2 := d1 - volatility * Math_sqrt timeToExpiry in
    let delta := if isCall then normalCDF d1 else normalCDF d1 - lit 1 in
    let gamma := normalPDF d1 / (spotPrice * volatility * Math_sqrt timeToExpiry) in
    let vega := spotPrice * normalPDF d1 * Math_sqrt timeToExpiry * lit 0.01 in
    let term1 := - (spotPrice * volatility * normalPDF d1) / (lit 2 * Math_sqrt timeToExpiry) in
    let term2 := riskFreeRate * strikePrice * Math_exp (- riskFreeRate * timeToExpiry) in
    let theta :=
      if isCall then (term1 - term2 * normalCDF d2) / lit 365
      else (term1 + term2 * normalCDF (- d2)) / lit 365 in
    let rho :=
      if isCall then
        strikePrice * timeToExpiry * Math_exp (- riskFreeRate * timeToExpiry)
        * normalCDF d2 * lit 0.01
      else
        - strikePrice * timeToExpiry * Math_exp (- riskFreeRate * timeToExpiry)
        * normalCDF (- d2) * lit 0.01 in
    {| delta := delta; gamma := gamma; theta := theta; vega := vega; rho := rho |}.

(** Year fraction until an expiry instant.  [now] is the reading of the
    clock ([new Date()]) and [expiryDate] the instant's [getTime()], both in
    milliseconds. *)
Definition dateToTimeToExpiry (now expiryDate : num) : num :=
  let diffMs := expiryDate - now in
  let diffDays := diffMs / (lit 1000 * lit 60 * lit 60 * lit 24) in
  diffDays / lit 365.

(** Year fraction of a duration given in hours, minutes and seconds. *)
Definition durationToTimeToExpiry (hours minutes seconds : num) : num :=
  let totalSeconds := hours * lit 3600 + minutes * lit 60 + seconds in
  let totalDays := totalSeconds / (lit 24 * lit 3600) in
  totalDays / lit 365.
End BlackScholes.

Arguments Greeks num : clear implicits.
Arguments delta {num} _.
Arguments gamma {num} _.
Arguments theta {num} _.
Arguments vega {num} _.
Arguments rho {num} _.

(** ** The payoff graph component *)

Inductive OptionType : Type := call | put.

Record PayoffPoint (num : Type) : Type := {
  price : num;
  buyerPayoff : num;
  sellerPayoff : num
}.
Arguments price {num} _.
Arguments buyerPayoff {num} _.
Arguments sellerPayoff {num} _.

Section PayoffGraph.
Context {num : Type} `{JSNumber num}.
Local Open Scope js_scope.

(** The loop body's two assignments: buyer and seller payoff at [price],
    before they are rounded for display. *)
Definition payoffAt (optionType : OptionType) (strikePrice premium price : num)
    : num * num :=
  match optionType with
  | call => (Math_max (lit 0) (price - strikePrice) - premium,
             premium - Math_max (lit 0) (price - strikePrice))
  | put => (Math_max (lit 0) (strikePrice - price) - premium,
            premium - Math_max (lit 0) (strikePrice - price))
  end.

(** The point pushed for [price]. *)
Definition pointAt (optionType : OptionType) (strikePrice premium price : num)
    : PayoffPoint num :=
  let (buyerPayoff, sellerPayoff) := payoffAt optionType strikePrice premium price in
  {| price := toFixed2 price;
     buyerPayoff := toFixed2 buyerPayoff;
     sellerPayoff := toFixed2 sellerPayoff |}.

(** [for (let price = minPrice; price <= maxPrice; price += step)]: every
    evaluation of the loop condition costs one unit of fuel; [None] means
    the fuel ran out before the condition failed. *)
Fixpoint generateData_loop (fuel : nat) (optionType : OptionType)
    (strikePrice premium maxPrice step price : num)
    (data : list (PayoffPoint num)) : option (list (PayoffPoint num)) :=
  match fuel with
  | O => None
  | S fuel' =>
      if price <=? maxPrice then
        generateData_loop fuel' optionType strikePrice premium maxPrice step
          (price + step)
          (data ++ [pointAt optionType strikePrice premium price])
      else Some data
  end.

Definition generateData (fuel : nat) (spotPrice strikePrice premium : num)
    (optionType : OptionType) : option (list (PayoffPoint num)) :=
  let minPrice := Math_max (lit 0) (strikePrice - spotPrice * lit 0.75) in
  let maxPrice := strikePrice + spotPrice * lit 0.75 in
  let step := (maxPrice - minPrice) / lit 100 in
  generateData_loop fuel optionType strikePrice premium maxPrice step minPrice [].

(** The prices the loop visits, unrounded: the same loop, keeping only the
    loop variable. *)
Fixpoint sampledPrices (fuel : nat) (maxPrice step price : num) : option (list num) :=
  match fuel with
  | O => None
  | S fuel' =>
      if price <=? maxPrice then
        option_map (cons price) (sampledPrices fuel' maxPrice step (price + step))
      else Some []
  end.
End PayoffGraph.


(** ** The volatility feed of the calculator component *)

(** A value produced by [JSON.parse]. *)
Inductive JSON (num : Type) : Type :=
| JNull
| JBool (b : bool)
| JNumber (n : num)
| JString (s : string)
| JArray (items : list (JSON num))
| JObject (fields : list (string * JSON num)).
Arguments JNull {num}.
Arguments JBool {num} b.
Arguments JNumber {num} n.
Arguments JString {num} s.
Arguments JArray {num} items.
Arguments JObject {num} fields.

(** Outcome of reading a property: a [TypeError], [undefined], or a value. *)
Inductive Access (A : Type) : Type :=
| Throws
| Undefined
| Value (v : A).
Arguments Throws {A}.
Arguments Undefined {A}.
Arguments Value {A} v.

(** [WebSocket.readyState]. *)
Inductive ReadyState : Type := CONNECTING | OPEN | CLOSING | CLOSED.

(** What the promise is rejected with. *)
Inductive FeedError (num : Type) : Type :=
| ServerError (message : Access (JSON num))
| InvalidResponseFormat
| CaughtException
| TransportError
| WebSocketTimeout.
Arguments ServerError {num} message.
Arguments InvalidResponseFormat {num}.
Arguments CaughtException {num}.
Arguments TransportError {num}.
Arguments WebSocketTimeout {num}.

Record DVOLResponse (num : Type) : Type := {
  volatility : num;
  timestamp : num
}.
Arguments volatility {num} _.
Arguments timestamp {num} _.

(** The promise returned by [fetchDVOLData]. *)
Inductive PromiseState (num : Type) : Type :=
| Pending
| Resolved (response : DVOLResponse num)
| Rejected (error : FeedError num).
Arguments Pending {num}.
Arguments Resolved {num} response.
Arguments Rejected {num} error.

(** The JSON-RPC message sent on open ([jsonrpc] and [id] are constants). *)
Record Request : Type := {
  method : string;
  currency : string
}.

(** The socket together with the promise under construction. *)
Record Feed (num : Type) : Type := {
  readyState : ReadyState;
  sent : list Request;
  promise : PromiseState num
}.
Arguments readyState {num} _.
Arguments sent {num} _.
Arguments promise {num} _.

(** What reaches the socket's handlers and the timer. *)
Inductive FeedEvent (num : Type) : Type :=
| Opened
| Message (data : option (JSON num)) (now : num)
| Errored
| PeerClosed
| TimerFired.
Arguments Opened {num}.
Arguments Message {num} data now.
Arguments Errored {num}.
Arguments PeerClosed {num}.
Arguments TimerFired {num}.

Definition upperAscii (c : ascii) : ascii :=
  let n := nat_of_ascii c in
  if (97 <=? n)%nat && (n <=? 122)%nat then ascii_of_nat (n - 32) else c.

Fixpoint toUpperCase (s : string) : string :=
  match s with
  | EmptyString => EmptyString
  | String c rest => String (upperAscii c) (toUpperCase rest)
  end.

Section VolatilityFeed.
Context {num : Type} `{JSNumber num}.
Local Open Scope js_scope.

Definition getProperty (v : JSON num) (name : string) : Access (JSON num) :=
  match v with
  | JNull => Throws
  | JObject fields =>
      match find (fun kv => String.eqb (fst kv) name) fields with
      | Some kv => Value (snd kv)
      | None => Undefined
      end
  | _ => Undefined
  end.

Definition truthy (v : JSON num) : bool :=
  match v with
  | JNull => false
  | JBool b => b
  | JNumber n => (n <? lit 0) || (lit 0 <? n)
  | JString s => negb (String.eqb s EmptyString)
  | JArray _ => true
  | JObject _ => true
  end.

(** [Number(row[1].toFixed(2))]; [None] when the expression throws. *)
Definition latestVolatilityOf (row : JSON num) : option num :=
  match row with
  | JArray items =>
      match nth_error items 1 with
      | Some (JNumber n) => Some (toFixed2 n)
      | _ => None
      end
  | JObject _ =>
      match getProperty row "1" with
      | Value (JNumber n) => Some (toFixed2 n)
      | _ => None
      end
  | _ => None
  end.

(** A promise settles once: later calls of [resolve] and [reject] do nothing. *)
Definition settle (outcome : PromiseState num) (ws : Feed num) : Feed num :=
  match promise ws with
  | Pending => {| readyState := readyState ws; sent := sent ws; promise := outcome |}
  | _ => ws
  end.

(** [ws.close()]. *)
Definition close (ws : Feed num) : Feed num :=
  match readyState ws with
  | CLOSING | CLOSED => ws
  | _ => {| readyState := CLOSING; sent := sent ws; promise := promise ws |}
  end.

Definition onopen (asset : string) (ws : Feed num) : Feed num :=
  let msg := {| method := "public/get_historical_volatility";
                currency := toUpperCase asset |} in
  {| readyState := OPEN; sent := sent ws ++ [msg]; promise := promise ws |}.

Definition onmessage (data : option (JSON num)) (now : num) (ws : Feed num) : Feed num :=
  match data with
  | None => settle (Rejected CaughtException) ws
  | Some data =>
      match getProperty data "result" with
      | Throws => settle (Rejected CaughtException) ws
      | Value (JArray (first :: rest)) =>
          match latestVolatilityOf (last (first :: rest) first) with
          | None => settle (Rejected CaughtException) ws
          | Some latestVolatility =>
              close (settle (Resolved {| volatility := latestVolatility;
                                         timestamp := now |}) ws)
          end
      | _ =>
          match getProperty data "error" with
          | Value e =>
              if truthy e then
                close (settle (Rejected (ServerError (getProperty e "message"))) ws)
              else close (settle (Rejected InvalidResponseFormat) ws)
          | _ => close (settle (Rejected InvalidResponseFormat) ws)
          end
      end
  end.

Definition onerror (ws : Feed num) : Feed num :=
  settle (Rejected TransportError) ws.

(** The 5000 ms timer's callback. *)
Definition ontimeout (ws : Feed num) : Feed num :=
  match readyState ws with
  | OPEN => settle (Rejected WebSocketTimeout) (close ws)
  | _ => ws
  end.

(** One event of the browser's event loop.  A message is delivered only
    while the socket is open. *)
Definition feedStep (asset : string) (ws : Feed num) (ev : FeedEvent num) : Feed num :=
  match ev with
  | Opened => match readyState ws with CONNECTING => onopen asset ws | _ => ws end
  | Message data now => match readyState ws with OPEN => onmessage data now ws | _ => ws end
  | Errored => onerror ws
  | PeerClosed => {| readyState := CLOSED; sent := sent ws; promise := promise ws |}
  | TimerFired => ontimeout ws
  end.

(** [fetchDVOLData(asset)] followed by the events that reach it. *)
Definition fetchDVOLData (asset : string) (events : list (FeedEvent num)) : Feed num :=
  fold_left (feedStep asset) events
    {| readyState := CONNECTING; sent := []; promise := Pending |}.
End VolatilityFeed.


(** ** The calculator component: form state, handlers, recalculation *)

(** The selectable assets; [SELECT] is the placeholder entry. *)
Inductive Asset : Type := SELECT | BTC | ETH | SOL | ADA | MATIC | BASE | ARB.

(** How the time to expiry is entered: ["date"] or ["duration"]. *)
Inductive TimeMethod : Type := byDate | byDuration.

(** What a text field hands to its change handler.  Of the string only two
    things are used: whether it is empty, and what [parseFloat] makes of it
    ([None] stands for [NaN]; [parseFloat] of the empty string is [NaN]). *)
Inductive FieldText (num : Type) : Type :=
| EmptyText
| Text (parsed : option num).
Arguments EmptyText {num}.
Arguments Text {num} parsed.

(** [getAssetId]: the price source's identifier; the placeholder has none. *)
Definition getAssetId (asset : Asset) : option string :=
  match asset with
  | SELECT => None
  | BTC => Some "bitcoin"%string
  | ETH => Some "ethereum"%string
  | SOL => Some "solana"%string
  | ADA => Some "cardano"%string
  | MATIC => Some "matic-network"%string
  | BASE => Some "coinbase-wrapped-staked-eth"%string
  | ARB => Some "arbitrum"%string
  end.

(** [getAssetDisplayName]. *)
Definition getAssetDisplayName (asset : Asset) : option string :=
  match asset with
  | SELECT => None
  | BTC => Some "Bitcoin (BTC)"%string
  | ETH => Some "Ethereum (ETH)"%string
  | SOL => Some "Solana (SOL)"%string
  | ADA => Some "Cardano (ADA)"%string
  | MATIC => Some "Polygon (MATIC)"%string
  | BASE => Some "Base (BASE)"%string
  | ARB => Some "Arbitrum (ARB)"%string
  end.

(** The asset's value as a string, as it is passed to [fetchDVOLData]. *)
Definition assetName (asset : Asset) : string :=
  match asset with
  | SELECT => "SELECT"%string
  | BTC => "BTC"%string
  | ETH => "ETH"%string
  | SOL => "SOL"%string
  | ADA => "ADA"%string
  | MATIC => "MATIC"%string
  | BASE => "BASE"%string
  | ARB => "ARB"%string
  end.

(** [selectedAsset === 'BTC' || selectedAsset === 'ETH']. *)
Definition supportsDVOL (asset : Asset) : bool :=
  match asset with
  | BTC | ETH => true
  | _ => false
  end.

(** *** The strings of the hour and minute selectors *)

Definition isDigit (c : ascii) : bool :=
  let n := nat_of_ascii c in (48 <=? n)%nat && (n <=? 57)%nat.

Definition digitOfNat (d : nat) : ascii := ascii_of_nat (48 + d)%nat.

(** The decimal digits of [n], most significant first, appended to [acc];
    [fuel] bounds the number of digits. *)
Fixpoint digitsOfNat (fuel n : nat) (acc : string) : string :=
  match fuel with
  | O => acc
  | S fuel' =>
      let acc' := String (digitOfNat (n mod 10)%nat) acc in
      if (n <? 10)%nat then acc' else digitsOfNat fuel' (n / 10)%nat acc'
  end.

(** [i.toString()] for a non-negative integer [i]. *)
Definition natToString (n : nat) : string := digitsOfNat (S n) n EmptyString.

Fixpoint repeatToLength (fuel : nat) (pad rest : string) (n : nat) : string :=
  match n with
  | O => EmptyString
  | S n' =>
      match rest with
      | String c rest' => String c (repeatToLength fuel pad rest' n')
      | EmptyString =>
          match fuel, pad with
          | S fuel', String c pad' => String c (repeatToLength fuel' pad pad' n')
          | _, _ => EmptyString
          end
      end
  end.

(** [s.padStart(targetLength, padString)]. *)
Definition padStart (targetLength : nat) (padString s : string) : string :=
  let len := String.length s in
  if (targetLength <=? len)%nat then s
  else
    match padString with
    | EmptyString => s
    | _ => String.append
             (repeatToLength (targetLength - len)%nat padString padString
                (targetLength - len)%nat) s
    end.

(** [Array.from({ length: n }, (_, i) => i.toString().padStart(2, "0"))]. *)
Definition timeOptions (n : nat) : list string :=
  map (fun i => padStart 2 "0"%string (natToString i)) (seq 0 n).

Definition hourOptions : list string := timeOptions 24.

Definition minuteOptions : list string := timeOptions 60.

Definition isWhiteSpace (c : ascii) : bool :=
  let n := nat_of_ascii c in
  ((9 <=? n)%nat && (n <=? 13)%nat) || Nat.eqb n 32.

Fixpoint trimStart (s : string) : string :=
  match s with
  | String c rest => if isWhiteSpace c then trimStart rest else s
  | EmptyString => EmptyString
  end.

Definition hexDigitValue (c : ascii) : option nat :=
  let n := nat_of_ascii c in
  if (48 <=? n)%nat && (n <=? 57)%nat then Some (n - 48)%nat
  else if (97 <=? n)%nat && (n <=? 102)%nat then Some (n - 87)%nat
  else if (65 <=? n)%nat && (n <=? 70)%nat then Some (n - 55)%nat
  else None.

Definition digitValue (radix : nat) (c : ascii) : option nat :=
  match hexDigitValue c with
  | Some d => if (d <? radix)%nat then Some d else None
  | None => None
  end.

(** The value of the longest prefix of digits; [None] when there is none. *)
Fixpoint parseDigits (radix : nat) (s : string) (acc : option nat) : option nat :=
  match s with
  | String c rest =>
      match digitValue radix c with
      | Some d =>
          parseDigits radix rest
            (Some (radix * match acc with Some a => a | None => 0 end + d)%nat)
      | None => acc
      end
  | EmptyString => acc
  end.

(** [parseInt(s)] with no radix given, on a string of ASCII characters:
    leading white space and a sign are skipped, a [0x] prefix selects base 16,
    and the longest prefix of digits is read; [None] is [NaN]. *)
Definition parseInt (s : string) : option Z :=
  let s := trimStart s in
  let (negative, s) :=
    match s with
    | String "-"%char rest => (true, rest)
    | String "+"%char rest => (false, rest)
    | _ => (false, s)
    end in
  let (radix, s) :=
    match s with
    | String "0"%char (String "x"%char rest) => (16%nat, rest)
    | String "0"%char (String "X"%char rest) => (16%nat, rest)
    | _ => (10%nat, s)
    end in
  match parseDigits radix s None with
  | Some n => Some (if negative then (- Z.of_nat n)%Z else Z.of_nat n)
  | None => None
  end.

Module Calculator.
Section Component.
Context {num : Type} `{JSNumber num} `{JSMath num}.
Local Open Scope js_scope.

(** The component's state, as far as the handlers below read or write it.
    The three pieces of the expiry instant (date, hour, minute) are not
    kept: the recalculation receives the instant they denote. *)
Record Form : Type := {
  selectedAsset : Asset;
  spotPrice : num;
  strikePrice : num;
  volatility : num;
  useDVOL : bool;
  dvolBtc : option num;
  dvolEth : option num;
  riskFreeRate : num;
  optionType : OptionType;
  timeMethod : TimeMethod;
  hours : num;
  minutes : num;
  seconds : num;
  premium : num;
  greeks : Greeks num
}.

(** The [useState] defaults. *)
Definition initialForm : Form := {|
  selectedAsset := SELECT;
  spotPrice := lit 100;
  strikePrice := lit 100;
  volatility := lit 100;
  useDVOL := false;
  dvolBtc := None;
  dvolEth := None;
  riskFreeRate := lit 0;
  optionType := call;
  timeMethod := byDate;
  hours := lit 0;
  minutes := lit 0;
  seconds := lit 0;
  premium := lit 0;
  greeks := {| delta := lit 0; gamma := lit 0; theta := lit 0; vega := lit 0;
               rho := lit 0 |}
|}.

Definition setSelectedAsset (v : Asset) (st : Form) : Form :=
  {| selectedAsset := v; spotPrice := spotPrice st; strikePrice := strikePrice st;
     volatility := volatility st; useDVOL := useDVOL st; dvolBtc := dvolBtc st;
     dvolEth := dvolEth st; riskFreeRate := riskFreeRate st;
     optionType := optionType st; timeMethod := timeMethod st; hours := hours st;
     minutes := minutes st; seconds := seconds st; premium := premium st;
     greeks := greeks st |}.

Definition setSpotPrice (v : num) (st : Form) : Form :=
  {| selectedAsset := selectedAsset st; spotPrice := v; strikePrice := strikePrice st;
     volatility := volatility st; useDVOL := useDVOL st; dvolBtc := dvolBtc st;
     dvolEth := dvolEth st; riskFreeRate := riskFreeRate st;
     optionType := optionType st; timeMethod := timeMethod st; hours := hours st;
     minutes := minutes st; seconds := seconds st; premium := premium st;
     greeks := greeks st |}.


Definition setVolatility (v : num) (st : Form) : Form :=
  {| selectedAsset := selectedAsset st; spotPrice := spotPrice st;
     strikePrice := strikePrice st; volatility := v; useDVOL := useDVOL st;
     dvolBtc := dvolBtc st; dvolEth := dvolEth st; riskFreeRate := riskFreeRate st;
     optionType := optionType st; timeMethod := timeMethod st; hours := hours st;
     minutes := minutes st; seconds := seconds st; premium := premium st;
     greeks := greeks st |}.

Definition setUseDVOL (v : bool) (st : Form) : Form :=
  {| selectedAsset := selectedAsset st; spotPrice := spotPrice st;
     strikePrice := strikePrice st; volatility := volatility st; useDVOL := v;
     dvolBtc := dvolBtc st; dvolEth := dvolEth st; riskFreeRate := riskFreeRate st;
     optionType := optionType st; timeMethod := timeMethod st; hours := hours st;
     minutes := minutes st; seconds := seconds st; premium := premium st;
     greeks := greeks st |}.

(** [setDvolData(prev => ({ ...prev, [asset.toLowerCase()]: v }))] for the two
    assets the call is reached with. *)
Definition setDvolData (asset : Asset) (v : num) (st : Form) : Form :=
  {| selectedAsset := selectedAsset st; spotPrice := spotPrice st;
     strikePrice := strikePrice st; volatility := volatility st;
     useDVOL := useDVOL st;
     dvolBtc := match asset with BTC => Some v | _ => dvolBtc st end;
     dvolEth := match asset with ETH => Some v | _ => dvolEth st end;
     riskFreeRate := riskFreeRate st;
     optionType := optionType st; timeMethod := timeMethod st; hours := hours st;
     minutes := minutes st; seconds := seconds st; premium := premium st;
     greeks := greeks st |}.





(** [setPremium(optionPremium); setGreeks(optionGreeks)]. *)
Definition setResults (p : num) (g : Greeks num) (st : Form) : Form :=
  {| selectedAsset := selectedAsset st; spotPrice := spotPrice st;
     strikePrice := strikePrice st; volatility := volatility st;
     useDVOL := useDVOL st; dvolBtc := dvolBtc st; dvolEth := dvolEth st;
     riskFreeRate := riskFreeRate st;
     optionType := optionType st; timeMethod := timeMethod st; hours := hours st;
     minutes := minutes st; seconds := seconds st; premium := p; greeks := g |}.

(** Validate and update a numeric input. *)
Definition handleNumericInput (value : FieldText num)
    (setter : num -> Form -> Form) (min : num) (st : Form) : Form :=
  match value with
  | Text (Some parsed) => if min <=? parsed then setter parsed st else st
  | Text None => st
  | EmptyText => setter (lit 0) st
  end.

(** The [onChange] handlers of the numeric fields. *)
Definition onSpotPriceChange (value : FieldText num) : Form -> Form :=
  handleNumericInput value setSpotPrice (lit 0.01).








(** [handleAssetSelection]: the new state and the asset whose price the
    handler goes on to fetch, if any. *)
Definition handleAssetSelection (value : Asset) (st : Form) : Form * option Asset :=
  let st := setSelectedAsset value st in
  match value with
  | SELECT => (st, None)
  | _ =>
      (if supportsDVOL value then st
       else setVolatility (lit 100) (setUseDVOL false st),
       Some value)
  end.

(** The recalculation effect.  [now] is the clock's reading and
    [expiryDateTime] the instant ([getTime()]) of the date built from the
    expiry date, hour and minute.  The analytics call and the animation flag
    are left out. *)
Definition calculationEffect (now expiryDateTime : num) (st : Form) : Form :=
  let timeToExpiry :=
    match timeMethod st with
    | byDate => dateToTimeToExpiry now expiryDateTime
    | byDuration => durationToTimeToExpiry (hours st) (minutes st) (seconds st)
    end in
  if (spotPrice st <=? lit 0) || (strikePrice st <=? lit 0)
     || (volatility st <=? lit 0) || (timeToExpiry <=? lit 0)
  then st
  else
    let volatilityDecimal := volatility st / lit 100 in
    let riskFreeRateDecimal := riskFreeRate st / lit 100 in
    let isCall := match optionType st with call => true | put => false end in
    let optionPremium :=
      calculateOptionPremium (spotPrice st) (strikePrice st) timeToExpiry
        volatilityDecimal riskFreeRateDecimal isCall in
    let optionGreeks :=
      calculateGreeks (spotPrice st) (strikePrice st) timeToExpiry
        volatilityDecimal riskFreeRateDecimal isCall in
    setResults optionPremium optionGreeks st.

(** The data of the payoff graph as the component renders it. *)
Definition payoffGraphData (fuel : nat) (st : Form)
    : option (list (PayoffPoint num)) :=
  generateData fuel (spotPrice st) (strikePrice st) (premium st) (optionType st).

(** [updateDVOL]: one poll of the feed, given the events that reach the
    socket it opens.  The result is the new state and the socket, if one was
    opened.  A rejected promise only raises a notice; a promise that never
    settles leaves the state as it is. *)
Definition updateDVOL (events : list (FeedEvent num)) (st : Form)
    : Form * option (Feed num) :=
  if useDVOL st && supportsDVOL (selectedAsset st) then
    let ws := fetchDVOLData (assetName (selectedAsset st)) events in
    match promise ws with
    | Resolved (Build_DVOLResponse _ resultVolatility _) =>
        (setVolatility resultVolatility
           (setDvolData (selectedAsset st) resultVolatility st),
         Some ws)
    | _ => (st, Some ws)
    end
  else (st, None).






(** The effect that runs when the selected asset has changed (the price
    fetch it starts is [fetchAssetPrice] below). *)
Definition assetChangedEffect (st : Form) : Form :=
  match selectedAsset st with
  | SELECT => st
  | _ => if useDVOL st then st else setVolatility (lit 100) st
  end.




End Component.
End Calculator.

(** ** Exact arithmetic: numbers as real numbers *)

Module Exact.
Local Open Scope R_scope.

(** The largest integer not above [x]. *)
Definition floor (x : R) : Z := (up x - 1)%Z.

(** [Number(x.toFixed(2))].  [toFixed] takes the integer [n] with [n / 100]
    nearest to the magnitude of [x], the larger one on a tie, and keeps the
    sign; from [1e21] on it prints [x] itself. *)
Definition roundToCents (x : R) : R :=
  if Rle_dec (10 ^ 21) (Rabs x) then x
  else if Rlt_dec x 0 then - (IZR (floor (100 * - x + / 2)) / 100)
  else IZR (floor (100 * x + / 2)) / 100.

Definition ltb (x y : R) : bool := if Rlt_dec x y then true else false.
Definition leb (x y : R) : bool := if Rle_dec x y then true else false.

Lemma ltb_true (x y : R) : ltb x y = true <-> x < y.
Proof. unfold ltb; destruct (Rlt_dec x y); split; intros; try easy; lra. Qed.

Lemma leb_true (x y : R) : leb x y = true <-> x <= y.
Proof. unfold leb; destruct (Rle_dec x y); split; intros; try easy; lra. Qed.

Lemma ltb_false (x y : R) : ltb x y = false <-> y <= x.
Proof. unfold ltb; destruct (Rlt_dec x y); split; intros; try easy; lra. Qed.

Lemma leb_false (x y : R) : leb x y = false <-> y < x.
Proof. unfold leb; destruct (Rle_dec x y); split; intros; try easy; lra. Qed.

Lemma Q2R_0 : Q2R 0 = 0.
Proof. unfold Q2R; cbn; lra. Qed.

Lemma Q2R_frac (n : Z) (d : positive) : Q2R (n # d) = IZR n / IZR (Zpos d).
Proof. reflexivity. Qed.

Lemma positive_not_le_exact (x : R) : ltb (Q2R 0) x = true -> leb x (Q2R 0) = false.
Proof. rewrite Q2R_0, ltb_true, leb_false; trivial. Qed.

#[global] Instance number : JSNumber R := {|
  lit := Q2R;
  nadd := Rplus;
  nsub := Rminus;
  nmul := Rmult;
  ndiv := Rdiv;
  nneg := Ropp;
  nltb := ltb;
  nleb := leb;
  Math_abs := Rabs;
  Math_sqrt := sqrt;
  Math_max := Rmax;
  Math_PI := PI;
  toFixed2 := roundToCents;
  positive_not_le := positive_not_le_exact
|}.

#[global] Instance math : JSMath R := {|
  Math_exp := exp;
  Math_log := ln
|}.
End Exact.

(** ** Binary64 arithmetic: numbers as a JavaScript engine holds them *)

Module Binary64.
Import Floats.
Local Open Scope float_scope.

(** An integer below [2^63] in magnitude, as the nearest binary64 value. *)
Definition ofZ (z : Z) : float :=
  match z with
  | Z0 => 0
  | Zpos _ => of_uint63 (Uint63.of_Z z)
  | Zneg p => - of_uint63 (Uint63.of_Z (Zpos p))
  end.

(** A decimal literal [n / 10^k]: numerator and denominator are exact
    (all literals of the source are below [2^53]) and the division rounds
    correctly, so the result is the binary64 value nearest to the decimal,
    which is how the engine reads the literal. *)
Definition ofQ (q : Q) : float := ofZ (Qnum q) / ofZ (Zpos (Qden q)).

(** [Math.max] of two arguments: [NaN] is contagious and [+0] is above [-0]. *)
Definition max (a b : float) : float :=
  if is_nan a || is_nan b then nan
  else if a <? b then b
  else if b <? a then a
  else if is_zero a && get_sign a then b
  else a.

(** [Number(x.toFixed(2))].  For a finite [x = m * 2^e] of magnitude below
    [2^46], [toFixed] prints [n / 100] for the integer [n] nearest to
    [100 * |x|] (the larger on a tie), [n] is below [2^53], and reading the
    digits back is the correctly rounded quotient.  From [2^46] on the
    spacing of binary64 exceeds [0.01] and reading the digits back gives [x]. *)
Definition roundToCents (x : float) : float :=
  match Prim2SF x with
  | S754_zero _ => 0
  | S754_finite s m e =>
      if abs x <? 0x1p46 then
        let n := ((200 * Zpos m + 2 ^ (- e)) / 2 ^ (1 - e))%Z in
        let r := ofZ n / 100 in
        if s then - r else r
      else x
  | _ => x
  end.

(** The specification's wording for the feed value, "truncated to 2 decimal
    places": the same reading of [x] with the digits after the second decimal
    dropped instead of rounded. *)
Definition truncateToCents (x : float) : float :=
  match Prim2SF x with
  | S754_zero _ => 0
  | S754_finite s m e =>
      if abs x <? 0x1p46 then
        let n := ((100 * Zpos m) / 2 ^ (- e))%Z in
        let r := ofZ n / 100 in
        if s then - r else r
      else x
  | _ => x
  end.

Lemma positive_not_le_binary64 (x : float) : (ofQ 0 <? x) = true -> (x <=? ofQ 0) = false.
Proof.
  change (ofQ 0) with 0.
  rewrite FloatAxioms.ltb_spec, FloatAxioms.leb_spec.
  change (Prim2SF 0) with (S754_zero false).
  destruct (Prim2SF x) as [s | s | | s m e]; cbn; try destruct s; congruence.
Qed.

#[global] Instance number : JSNumber float := {|
  lit := ofQ;
  nadd := PrimFloat.add;
  nsub := PrimFloat.sub;
  nmul := PrimFloat.mul;
  ndiv := PrimFloat.div;
  nneg := PrimFloat.opp;
  nltb := PrimFloat.ltb;
  nleb := PrimFloat.leb;
  Math_abs := PrimFloat.abs;
  Math_sqrt := PrimFloat.sqrt;
  Math_max := max;
  Math_PI := 0x1.921fb54442d18p+1;
  toFixed2 := roundToCents;
  positive_not_le := positive_not_le_binary64
|}.

(** [Math.exp] and [Math.log] of an engine.  ECMA-262 calls their results
    implementation-approximated and fixes them only at the arguments
    below. *)
Record ConformingMath : Type := {
  exp_of : float -> float;
  log_of : float -> float;
  exp_nan : exp_of nan = nan;
  exp_pos_zero : exp_of 0 = 1;
  exp_neg_zero : exp_of (-0) = 1;
  exp_pos_infinity : exp_of infinity = infinity;
  exp_neg_infinity : exp_of neg_infinity = 0;
  log_nan : log_of nan = nan;
  log_one : log_of 1 = 0;
  log_pos_infinity : log_of infinity = infinity;
  log_pos_zero : log_of 0 = neg_infinity;
  log_neg_zero : log_of (-0) = neg_infinity
}.

Definition math (M : ConformingMath) : JSMath float := {|
  Math_exp := exp_of M;
  Math_log := log_of M
|}.

(** The fixed results alone, and [NaN] wherever the standard leaves the
    result to the engine: the record above is inhabited.  What is proved
    below for binary64 is proved for every [ConformingMath]. *)
Definition fixedExp (x : float) : float :=
  if is_zero x then 1
  else if is_infinity x then (if get_sign x then 0 else infinity)
  else nan.

Definition fixedLog (x : float) : float :=
  if is_zero x then neg_infinity
  else if x =? 1 then 0
  else if is_infinity x && negb (get_sign x) then infinity
  else nan.

Definition fixedResults : ConformingMath := {|
  exp_of := fixedExp;
  log_of := fixedLog;
  exp_nan := eq_refl;
  exp_pos_zero := eq_refl;
  exp_neg_zero := eq_refl;
  exp_pos_infinity := eq_refl;
  exp_neg_infinity := eq_refl;
  log_nan := eq_refl;
  log_one := eq_refl;
  log_pos_infinity := eq_refl;
  log_pos_zero := eq_refl;
  log_neg_zero := eq_refl
|}.
End Binary64.

(** ** Notions used to state the properties *)

Import Exact.
Local Open Scope R_scope.

(** The two parameters of the pricing formula, as the specification writes
    them. *)
Definition d1 (S K T sigma r : R) : R :=
  (ln (S / K) + (r + sigma ^ 2 / 2) * T) / (sigma * sqrt T).

Definition d2 (S K T sigma r : R) : R :=
  d1 S K T sigma r - sigma * sqrt T.

(** The polynomial factor of [normalCDF]'s error-function approximation,
    and the approximation itself on the non-negative half line. *)
Definition erfPoly (t : R) : R :=
  ((((1.061405429 * t + -1.453152027) * t + 1.421413741) * t + -0.284496736) * t
   + 0.254829592) * t.

Definition erfApprox (y : R) : R :=
  1 - erfPoly (1 / (1 + 0.3275911 * y)) * exp (- y * y).

(** [a] and [b] agree within the relative tolerance [tol]. *)
Definition withinRelative (tol a b : R) : Prop :=
  Rabs (a - b) <= tol * Rmax (Rabs a) (Rabs b).

(** The sampling range and step of [generateData], as real numbers, and the
    [i]-th price of the grid they span. *)
Definition rangeMin (S K : R) : R := Rmax 0 (K - S * 0.75).

Definition rangeMax (S K : R) : R := K + S * 0.75.

Definition rangeStep (S K : R) : R := (rangeMax S K - rangeMin S K) / 100.

Definition gridPrice (minPrice step : R) (i : nat) : R := minPrice + INR i * step.

(** The one request a feed socket sends. *)
Definition feedRequest (asset : string) : Request :=
  {| method := "public/get_historical_volatility"; currency := toUpperCase asset |}.

(** What holds of a feed socket at every moment of its life, by ready
    state: nothing is sent before it opens, exactly one request afterwards,
    and a resolved promise only with a socket that is closing or closed. *)
Definition feedInvariant {num : Type} (asset : string) (ws : Feed num) : Prop :=
  match readyState ws with
  | CONNECTING =>
      sent ws = [] /\ (promise ws = Pending \/ promise ws = Rejected TransportError)
  | OPEN => sent ws = [feedRequest asset] /\ forall r, promise ws <> Resolved r
  | CLOSING => sent ws = [feedRequest asset]
  | CLOSED =>
      sent ws = [feedRequest asset]
      \/ (sent ws = [] /\ forall r, promise ws <> Resolved r)
  end.



(** Unfolds the number interface at the exact instance. *)
Ltac exact_arith :=
  cbv beta iota zeta delta
    [lit nadd nsub nmul ndiv nneg nltb nleb Math_abs Math_sqrt Math_max Math_PI
     Math_exp Math_log toFixed2 number math];
  rewrite ?Q2R_frac, ?Rdiv_1_r.

(** ** The guard, under every interpretation of the number interface *)

Section Guard.
Context {num : Type} `{JSNumber num} `{JSMath num}.
Local Open Scope js_scope.

Lemma invalidInputs_true (S K T sigma : num) :
  invalidInputs S K T sigma = true <->
  (S <=? lit 0) = true \/ (K <=? lit 0) = true \/ (T <=? lit 0) = true
  \/ (sigma <=? lit 0) = true.
Proof.
  unfold invalidInputs. rewrite !orb_true_iff. tauto.
Qed.

Lemma invalidInputs_positive (S K T sigma : num) :
  (lit 0 <? S) = true -> (lit 0 <? K) = true -> (lit 0 <? T) = true ->
  (lit 0 <? sigma) = true -> invalidInputs S K T sigma = false.
Proof.
  intros HS HK HT Hs. unfold invalidInputs.
  rewrite (positive_not_le _ HS), (positive_not_le _ HK),
    (positive_not_le _ HT), (positive_not_le _ Hs).
  reflexivity.
Qed.

(** C3.  Whenever the spot price, the strike, the time to expiry or the
    volatility is [<= 0], the premium is the literal [0] and the Greeks are
    the record of five literal zeros.  The statement holds for every
    interpretation of the arithmetic, of [Math.log], [Math.sqrt] and of the
    division: the result does not depend on what those operations do, or
    whether they would fail, on such inputs, so the guard decides before
    any of them is evaluated. *)
Theorem degenerate_inputs_give_zero (S K T sigma r : num) (isCall : bool) :
  (S <=? lit 0) = true \/ (K <=? lit 0) = true \/ (T <=? lit 0) = true
  \/ (sigma <=? lit 0) = true ->
  calculateOptionPremium S K T sigma r isCall = lit 0
  /\ calculateGreeks S K T sigma r isCall
     = {| delta := lit 0; gamma := lit 0; theta := lit 0; vega := lit 0;
          rho := lit 0 |}.
Proof.
  intros Hbad. apply invalidInputs_true in Hbad.
  unfold calculateOptionPremium, calculateGreeks. rewrite Hbad.
  split; reflexivity.
Qed.
End Guard.

(** ** Exact arithmetic: the pricing engine *)

Lemma valid_contract (S K T sigma : R) :
  0 < S -> 0 < K -> 0 < T -> 0 < sigma -> invalidInputs S K T sigma = false.
Proof.
  intros; apply invalidInputs_positive; apply ltb_true; cbv [lit number];
    rewrite Q2R_0; assumption.
Qed.

Lemma code_d1 (S K T sigma r : R) :
  (ln (S / K) + (r + 5 / 10 * sigma * sigma) * T) / (sigma * sqrt T)
  = d1 S K T sigma r.
Proof. unfold d1. f_equal. lra. Qed.

Lemma normalCDF_eq (x : R) :
  normalCDF x
  = 0.5 * (1 + (if Rlt_dec x 0 then -1 else 1) * erfApprox (Rabs x / sqrt 2)).
Proof.
  unfold normalCDF. exact_arith. unfold ltb, erfApprox, erfPoly.
  destruct (Rlt_dec x 0); reflexivity.
Qed.

Lemma normalPDF_eq (x : R) : normalPDF x = exp (- (x * x) / 2) / sqrt (2 * PI).
Proof. unfold normalPDF. exact_arith. f_equal. f_equal. lra. Qed.

(** The spec's degenerate example, as an instance of the guard theorem. *)
Lemma degenerate_inputs_give_zero_witness :
  calculateOptionPremium 100 100 0 0.5 0.05 true = lit 0
  /\ calculateGreeks 100 100 0 0.5 0.05 true
     = {| delta := lit 0; gamma := lit 0; theta := lit 0; vega := lit 0;
          rho := lit 0 |}.
Proof.
  apply (degenerate_inputs_give_zero (num := R) 100 100 0 0.5 0.05 true).
  right; right; left. apply leb_true. cbv [lit number]. rewrite Q2R_0. lra.
Defined.

Lemma premium_closed_form (S K T sigma r : R) (isCall : bool) :
  0 < S -> 0 < K -> 0 < T -> 0 < sigma ->
  calculateOptionPremium S K T sigma r isCall
  = if isCall then
      S * normalCDF (d1 S K T sigma r)
      - K * exp (- r * T) * normalCDF (d2 S K T sigma r)
    else
      K * exp (- r * T) * normalCDF (- d2 S K T sigma r)
      - S * normalCDF (- d1 S K T sigma r).
Proof.
  intros HS HK HT Hs.
  unfold calculateOptionPremium. rewrite (valid_contract _ _ _ _ HS HK HT Hs).
  exact_arith. rewrite code_d1. fold (d2 S K T sigma r). reflexivity.
Qed.

Lemma greeks_closed_form (S K T sigma r : R) (isCall : bool) :
  0 < S -> 0 < K -> 0 < T -> 0 < sigma ->
  let D1 := d1 S K T sigma r in
  let D2 := d2 S K T sigma r in
  calculateGreeks S K T sigma r isCall
  = {| delta := if isCall then normalCDF D1 else normalCDF D1 - 1;
       gamma := normalPDF D1 / (S * sigma * sqrt T);
       theta :=
         if isCall then
           (- (S * sigma * normalPDF D1) / (2 * sqrt T)
            - r * K * exp (- r * T) * normalCDF D2) / 365
         else
           (- (S * sigma * normalPDF D1) / (2 * sqrt T)
            + r * K * exp (- r * T) * normalCDF (- D2)) / 365;
       vega := S * normalPDF D1 * sqrt T * (1 / 100);
       rho :=
         if isCall then K * T * exp (- r * T) * normalCDF D2 * (1 / 100)
         else - K * T * exp (- r * T) * normalCDF (- D2) * (1 / 100) |}.
Proof.
  intros HS HK HT Hs. cbv zeta.
  unfold calculateGreeks. rewrite (valid_contract _ _ _ _ HS HK HT Hs).
  exact_arith. rewrite code_d1. fold (d2 S K T sigma r).
  destruct isCall; reflexivity.
Qed.

(** C1.  On a valid contract the premium is the Black-Scholes-Merton
    formula over the implemented [normalCDF]: [S N(d1) - K e^(-rT) N(d2)]
    for a call and [K e^(-rT) N(-d2) - S N(-d1)] for a put.  The divisors
    of the formula are not [0], the logarithm's argument is positive and the
    square root's is not negative, so the real-valued reading is the
    intended one. *)
Theorem premium_formula (S K T sigma r : R) :
  0 < S -> 0 < K -> 0 < T -> 0 < sigma ->
  calculateOptionPremium S K T sigma r true
  = S * normalCDF (d1 S K T sigma r)
    - K * exp (- r * T) * normalCDF (d2 S K T sigma r)
  /\ calculateOptionPremium S K T sigma r false
  = K * exp (- r * T) * normalCDF (- d2 S K T sigma r)
    - S * normalCDF (- d1 S K T sigma r)
  /\ (K <> 0 /\ 0 < S / K /\ 0 <= T /\ sigma * sqrt T <> 0).
Proof.
  intros HS HK HT Hs.
  split; [exact (premium_closed_form S K T sigma r true HS HK HT Hs)|].
  split; [exact (premium_closed_form S K T sigma r false HS HK HT Hs)|].
  pose proof (sqrt_lt_R0 T HT) as HT'.
  pose proof (Rmult_lt_0_compat _ _ Hs HT') as Hden.
  pose proof (Rdiv_lt_0_compat _ _ HS HK) as Hratio.
  repeat split; try assumption; lra.
Qed.

Lemma premium_formula_witness :
  calculateOptionPremium 100 100 1 0.2 0.05 true
  = 100 * normalCDF (d1 100 100 1 0.2 0.05)
    - 100 * exp (- (0.05) * 1) * normalCDF (d2 100 100 1 0.2 0.05).
Proof.
  exact (proj1 (premium_formula 100 100 1 0.2 0.05
                  ltac:(lra) ltac:(lra) ltac:(lra) ltac:(lra))).
Defined.

(** C2.  On a valid contract the Greeks are the closed forms of the
    specification, over the implemented [normalCDF] and [normalPDF]. *)
Theorem greeks_formulas (S K T sigma r : R) :
  0 < S -> 0 < K -> 0 < T -> 0 < sigma ->
  let N := normalCDF in
  let N' := normalPDF in
  let D1 := d1 S K T sigma r in
  let D2 := d2 S K T sigma r in
  let c := calculateGreeks S K T sigma r true in
  let p := calculateGreeks S K T sigma r false in
  delta c = N D1 /\ delta p = N D1 - 1
  /\ gamma c = N' D1 / (S * sigma * sqrt T) /\ gamma p = gamma c
  /\ vega c = S * N' D1 * sqrt T * 0.01 /\ vega p = vega c
  /\ theta c = (- S * sigma * N' D1 / (2 * sqrt T) - r * K * exp (- r * T) * N D2) / 365
  /\ theta p = (- S * sigma * N' D1 / (2 * sqrt T) + r * K * exp (- r * T) * N (- D2)) / 365
  /\ rho c = K * T * exp (- r * T) * N D2 * 0.01
  /\ rho p = - K * T * exp (- r * T) * N (- D2) * 0.01.
Proof.
  intros HS HK HT Hs. cbv zeta.
  rewrite !(greeks_closed_form S K T sigma r _ HS HK HT Hs).
  cbv [delta gamma theta vega rho].
  repeat split; try reflexivity; lra.
Qed.

Lemma greeks_formulas_witness :
  delta (calculateGreeks 100 100 1 0.2 0.05 true)
  = normalCDF (d1 100 100 1 0.2 0.05).
Proof.
  exact (proj1 (greeks_formulas 100 100 1 0.2 0.05
                  ltac:(lra) ltac:(lra) ltac:(lra) ltac:(lra))).
Defined.

(** *** The normal distribution approximation *)

Lemma erfPoly_pos (t : R) : 0 < t <= 1 -> 0 < erfPoly t.
Proof.
  intros [H0 H1]. unfold erfPoly.
  apply Rmult_lt_0_compat; [|exact H0].
  pose proof (Rle_0_sqr (t - 0.6845)) as S1. unfold Rsqr in S1.
  pose proof (Rle_0_sqr (t - 0.2728)) as S2. unfold Rsqr in S2.
  assert (Q1 : 0 < 1.061405429 * (t * t) - 1.453152027 * t + 0.9) by lra.
  assert (Q2 : 0 < 0.521413741 * (t * t) - 0.284496736 * t + 0.254829592) by lra.
  assert (Q3 : 0 <= (t * t) * (1.061405429 * (t * t) - 1.453152027 * t + 0.9)).
  { apply Rmult_le_pos; [apply Rle_0_sqr | lra]. }
  lra.
Qed.

Lemma erfPoly_lt_2 (t : R) : 0 < t <= 1 -> erfPoly t < 2.
Proof.
  intros [H0 H1]. unfold erfPoly.
  assert (A : t * t <= 1) by nra.
  assert (B : 0 <= t * t) by nra.
  assert (C : (1.061405429 * t + -1.453152027) * (t * t * t * t) <= 0).
  { assert (0 <= t * t * t * t) by nra. nra. }
  assert (D : (1.421413741 * t + -0.284496736) * (t * t)
              <= 1.421413741 + -0.284496736).
  { destruct (Rle_dec 0 (1.421413741 * t + -0.284496736)); nra. }
  nra.
Qed.

Lemma erfPoly_1 : erfPoly 1 = 0.999999999.
Proof. unfold erfPoly. lra. Qed.

Lemma sqrt2_pos : 0 < sqrt 2.
Proof. apply sqrt_lt_R0; lra. Qed.

Lemma erfApprox_0 : erfApprox 0 = 0.000000001.
Proof.
  unfold erfApprox.
  replace (1 / (1 + 0.3275911 * 0)) with 1 by (field; lra).
  replace (- 0 * 0) with 0 by ring.
  rewrite exp_0, erfPoly_1. lra.
Qed.

(** The approximated error function stays strictly inside [(-1, 1)]. *)
Lemma erfApprox_bounds (y : R) : 0 <= y -> -1 < erfApprox y < 1.
Proof.
  intros Hy. unfold erfApprox.
  set (t := 1 / (1 + 0.3275911 * y)).
  assert (Ht : 0 < t <= 1).
  { unfold t. split.
    - apply Rdiv_lt_0_compat; lra.
    - apply (Rmult_le_reg_r (1 + 0.3275911 * y)); [lra|].
      unfold Rdiv. rewrite Rmult_assoc, Rinv_l by lra. lra. }
  pose proof (erfPoly_pos t Ht) as P0.
  pose proof (erfPoly_lt_2 t Ht) as P2.
  pose proof (exp_pos (- y * y)) as E0.
  assert (E1 : exp (- y * y) <= 1).
  { rewrite <- exp_0. destruct (Req_dec y 0) as [->|Hn].
    - replace (- 0 * 0) with 0 by ring. lra.
    - left. apply exp_increasing. nra. }
  nra.
Qed.

Lemma normalCDF_0 : normalCDF 0 = 0.5000000005.
Proof.
  rewrite normalCDF_eq. destruct (Rlt_dec 0 0) as [H|_]; [lra|].
  rewrite Rabs_R0. replace (0 / sqrt 2) with 0 by (unfold Rdiv; ring).
  rewrite erfApprox_0. lra.
Qed.

Lemma normalCDF_bounds (x : R) : 0 < normalCDF x < 1.
Proof.
  rewrite normalCDF_eq.
  assert (Hy : 0 <= Rabs x / sqrt 2).
  { apply Rmult_le_pos; [apply Rabs_pos|]. left. apply Rinv_0_lt_compat, sqrt2_pos. }
  pose proof (erfApprox_bounds _ Hy).
  destruct (Rlt_dec x 0); lra.
Qed.

Lemma normalCDF_reflect (x : R) : x <> 0 -> normalCDF (- x) + normalCDF x = 1.
Proof.
  intros Hx. rewrite !normalCDF_eq, Rabs_Ropp.
  destruct (Rlt_dec (- x) 0), (Rlt_dec x 0); lra.
Qed.

(** C4, as stated, fails at [x = 0]: the approximation gives
    [normalCDF 0 = 0.5000000005], and [-0] is the same argument. *)
Lemma normalCDF_not_antisymmetric_at_zero :
  normalCDF 0 <> 0.5 /\ normalCDF (- 0) <> 1 - normalCDF 0.
Proof.
  rewrite Ropp_0, normalCDF_0. split; lra.
Qed.

(** C4, amended.  In exact arithmetic [normalCDF (- x) = 1 - normalCDF x]
    for every [x] other than [0], and [normalCDF 0 = 0.5000000005]. *)
Theorem normalCDF_antisymmetric_off_zero (x : R) :
  x <> 0 ->
  normalCDF (- x) = 1 - normalCDF x
  /\ normalCDF (- x) + normalCDF x = 1
  /\ normalCDF 0 = 0.5000000005.
Proof.
  intros Hx. pose proof (normalCDF_reflect x Hx).
  repeat split; [lra | assumption | apply normalCDF_0].
Qed.

Lemma normalCDF_antisymmetric_off_zero_witness :
  normalCDF (- 1) = 1 - normalCDF 1
  /\ normalCDF (- 1) + normalCDF 1 = 1
  /\ normalCDF 0 = 0.5000000005.
Proof. apply (normalCDF_antisymmetric_off_zero 1); lra. Defined.

(** *** Bounds on the Greeks *)

Lemma normalPDF_pos (x : R) : 0 < normalPDF x.
Proof.
  rewrite normalPDF_eq. apply Rdiv_lt_0_compat; [apply exp_pos|].
  apply sqrt_lt_R0. pose proof PI_RGT_0. lra.
Qed.

(** C8, amended.  In exact arithmetic, on every valid contract, delta lies
    strictly in [(0, 1)] for a call and strictly in [(-1, 0)] for a put,
    and gamma and vega are positive. *)
Theorem greeks_bounds (S K T sigma r : R) :
  0 < S -> 0 < K -> 0 < T -> 0 < sigma ->
  let c := calculateGreeks S K T sigma r true in
  let p := calculateGreeks S K T sigma r false in
  0 < delta c < 1 /\ -1 < delta p < 0
  /\ 0 < gamma c /\ 0 < gamma p /\ 0 < vega c /\ 0 < vega p.
Proof.
  intros HS HK HT Hs. cbv zeta.
  rewrite !(greeks_closed_form S K T sigma r _ HS HK HT Hs).
  cbv [delta gamma theta vega rho].
  pose proof (normalCDF_bounds (d1 S K T sigma r)) as HN.
  pose proof (normalPDF_pos (d1 S K T sigma r)) as HP.
  pose proof (sqrt_lt_R0 T HT) as HT'.
  assert (HD : 0 < S * sigma * sqrt T).
  { apply Rmult_lt_0_compat; [|assumption]. apply Rmult_lt_0_compat; assumption. }
  assert (HG : 0 < normalPDF (d1 S K T sigma r) / (S * sigma * sqrt T))
    by (apply Rdiv_lt_0_compat; assumption).
  assert (HV : 0 < S * normalPDF (d1 S K T sigma r) * sqrt T * (1 / 100)).
  { apply Rmult_lt_0_compat; [|lra].
    apply Rmult_lt_0_compat; [|assumption].
    apply Rmult_lt_0_compat; assumption. }
  repeat split; try assumption; lra.
Qed.

Lemma greeks_bounds_witness :
  0 < delta (calculateGreeks 100 100 1 0.2 0.05 true) < 1.
Proof.
  exact (proj1 (greeks_bounds 100 100 1 0.2 0.05
                  ltac:(lra) ltac:(lra) ltac:(lra) ltac:(lra))).
Defined.

Section Binary64Greeks.
Import Floats.
Local Open Scope float_scope.

(** In binary64, whatever the engine's [Math.exp] and [Math.log]: when
    [S / K] overflows, [d1] is infinite and [normalCDF] returns exactly
    [1]. *)
Lemma delta_saturates_binary64 (M : Binary64.ConformingMath) :
  delta (@calculateGreeks float _ (Binary64.math M) 1e200 1e-200 1 0.2 0.05 true)
  = 1.
Proof.
  cbv -[Binary64.exp_of Binary64.log_of].
  rewrite Binary64.log_pos_infinity.
  cbv -[Binary64.exp_of Binary64.log_of].
  rewrite Binary64.exp_neg_infinity.
  reflexivity.
Qed.

(** C8, as stated, fails on binary64 numbers: on the valid contract
    [S = 1e200], [K = 1e-200], [T = 1], [sigma = 0.2], [r = 0.05] the call's
    delta is exactly [1], for every conforming [Math] library. *)
Lemma delta_not_strictly_below_one_binary64 :
  ~ (forall (M : Binary64.ConformingMath) (S K T sigma r : float),
        (0 <? S) = true -> (0 <? K) = true ->
        (0 <? T) = true -> (0 <? sigma) = true ->
        let d := delta (@calculateGreeks float _ (Binary64.math M)
                          S K T sigma r true) in
        (0 <? d) = true /\ (d <? 1) = true).
Proof.
  intros C.
  destruct (C Binary64.fixedResults 1e200 1e-200 1 0.2 0.05
              eq_refl eq_refl eq_refl eq_refl) as [_ C1].
  rewrite delta_saturates_binary64 in C1. discriminate C1.
Qed.

(** X2.  In binary64 too, whatever the engine's [Math.exp]: [normalCDF] is above
    one half at [0], and [-0] gives the same value. *)
Lemma normalCDF_zero_binary64 (M : Binary64.ConformingMath) :
  @normalCDF float _ (Binary64.math M) 0 = 0.50000000050000004
  /\ @normalCDF float _ (Binary64.math M) (-0) = 0.50000000050000004.
Proof.
  split.
  - cbv -[Binary64.exp_of Binary64.log_of].
    rewrite Binary64.exp_neg_zero. reflexivity.
  - cbv -[Binary64.exp_of Binary64.log_of].
    rewrite Binary64.exp_neg_zero. reflexivity.
Qed.
End Binary64Greeks.

(** *** Put-call parity *)

(** What [normalCDF x + normalCDF (- x)] is: [1] away from [0], and
    [1.000000001] at [0], where both arguments take the non-negative branch. *)
Lemma normalCDF_pair (x : R) :
  normalCDF x + normalCDF (- x) = if Req_dec_T x 0 then 1.000000001 else 1.
Proof.
  destruct (Req_dec_T x 0) as [-> | Hx].
  - rewrite Ropp_0, normalCDF_0. lra.
  - pose proof (normalCDF_reflect x Hx). lra.
Qed.

Lemma parity_defect (S K T sigma r : R) :
  0 < S -> 0 < K -> 0 < T -> 0 < sigma ->
  calculateOptionPremium S K T sigma r true
  - calculateOptionPremium S K T sigma r false
  - (S - K * exp (- r * T))
  = S * ((if Req_dec_T (d1 S K T sigma r) 0 then 1.000000001 else 1) - 1)
    - K * exp (- r * T)
      * ((if Req_dec_T (d2 S K T sigma r) 0 then 1.000000001 else 1) - 1).
Proof.
  intros HS HK HT Hs.
  rewrite !(premium_closed_form S K T sigma r _ HS HK HT Hs).
  rewrite <- !normalCDF_pair. ring.
Qed.

Lemma exp_small_bounds : 1 + 1 / 8192 < exp (1 / 8192) < 1.001.
Proof.
  split.
  - pose proof (exp_ineq1 (1 / 8192)). lra.
  - pose proof (exp_ineq1 (- (1 / 8192))) as L.
    rewrite exp_Ropp in L.
    pose proof (exp_pos (1 / 8192)) as P.
    assert (L' : 8191 / 8192 < / exp (1 / 8192)) by lra.
    apply (Rmult_lt_compat_r (exp (1 / 8192))) in L'; [|assumption].
    rewrite Rinv_l in L' by lra. lra.
Qed.

(** C7, as stated, fails: with [S = K = 1], [T = 1], [sigma = 1/64] and
    [r = -1/8192] the parameter [d1] is exactly [0], the call and the put
    both see [normalCDF 0 = 0.5000000005], and call minus put misses
    [S - K e^(-rT)] by [1e-9], more than [1e-6] of either side. *)
Lemma parity_outside_relative_tolerance :
  ~ withinRelative 0.000001
      (calculateOptionPremium 1 1 1 (1 / 64) (- (1 / 8192)) true
       - calculateOptionPremium 1 1 1 (1 / 64) (- (1 / 8192)) false)
      (1 - 1 * exp (- - (1 / 8192) * 1)).
Proof.
  assert (Hd1 : d1 1 1 1 (1 / 64) (- (1 / 8192)) = 0).
  { unfold d1. replace (1 / 1) with 1 by lra. rewrite ln_1, sqrt_1.
    replace (0 + (- (1 / 8192) + (1 / 64) ^ 2 / 2) * 1) with 0 by lra.
    unfold Rdiv. apply Rmult_0_l. }
  assert (Hd2 : d2 1 1 1 (1 / 64) (- (1 / 8192)) = - (1 / 64)).
  { unfold d2. rewrite Hd1, sqrt_1. lra. }
  pose proof (parity_defect 1 1 1 (1 / 64) (- (1 / 8192))
                ltac:(lra) ltac:(lra) ltac:(lra) ltac:(lra)) as D.
  rewrite Hd1, Hd2 in D.
  destruct (Req_dec_T 0 0) as [_ | N]; [|lra].
  destruct (Req_dec_T (- (1 / 64)) 0) as [E | _]; [lra|].
  replace (- - (1 / 8192) * 1) with (1 / 8192) in * by lra.
  pose proof exp_small_bounds as [E1 E2].
  unfold withinRelative. intros W.
  set (c := calculateOptionPremium 1 1 1 (1 / 64) (- (1 / 8192)) true) in *.
  set (p := calculateOptionPremium 1 1 1 (1 / 64) (- (1 / 8192)) false) in *.
  set (e := exp (1 / 8192)) in *.
  assert (A : c - p = 1.000000001 - e) by lra.
  rewrite A in W.
  replace (1.000000001 - e - (1 - 1 * e)) with 0.000000001 in W by lra.
  rewrite (Rabs_pos_eq 0.000000001) in W by lra.
  rewrite (Rabs_left (1.000000001 - e)) in W by lra.
  rewrite (Rabs_left (1 - 1 * e)) in W by lra.
  rewrite Rmax_right in W by lra.
  lra.
Qed.

(** C7, amended.  In exact arithmetic, on every valid contract, call minus
    put differs from [S - K e^(-rT)] by at most [1e-9 * max(S, K e^(-rT))],
    and by nothing when neither [d1] nor [d2] is [0]. *)
Theorem put_call_parity (S K T sigma r : R) :
  0 < S -> 0 < K -> 0 < T -> 0 < sigma ->
  let c := calculateOptionPremium S K T sigma r true in
  let p := calculateOptionPremium S K T sigma r false in
  Rabs (c - p - (S - K * exp (- r * T)))
  <= 0.000000001 * Rmax S (K * exp (- r * T))
  /\ (d1 S K T sigma r <> 0 -> d2 S K T sigma r <> 0 ->
      c - p = S - K * exp (- r * T)).
Proof.
  intros HS HK HT Hs. cbv zeta.
  pose proof (parity_defect S K T sigma r HS HK HT Hs) as D.
  pose proof (exp_pos (- r * T)) as E.
  assert (KE : 0 < K * exp (- r * T)) by (apply Rmult_lt_0_compat; assumption).
  pose proof (Rmax_l S (K * exp (- r * T))) as ML.
  pose proof (Rmax_r S (K * exp (- r * T))) as MR.
  assert (Hd : d1 S K T sigma r = 0 -> d2 S K T sigma r <> 0).
  { intros Z. unfold d2. rewrite Z.
    pose proof (sqrt_lt_R0 T HT).
    assert (0 < sigma * sqrt T) by (apply Rmult_lt_0_compat; assumption). lra. }
  destruct (Req_dec_T (d1 S K T sigma r) 0) as [Z1 | N1];
    destruct (Req_dec_T (d2 S K T sigma r) 0) as [Z2 | N2].
  - exfalso. exact (Hd Z1 Z2).
  - split; [|intros; lra].
    replace (_ - _ - _) with (0.000000001 * S) by lra.
    rewrite Rabs_pos_eq by lra. lra.
  - split; [|intros; lra].
    replace (_ - _ - _) with (- (0.000000001 * (K * exp (- r * T)))) by lra.
    rewrite Rabs_Ropp, Rabs_pos_eq by lra. lra.
  - split; [|intros; lra].
    replace (_ - _ - _) with 0 by lra.
    rewrite Rabs_R0. lra.
Qed.

Lemma put_call_parity_witness :
  Rabs (calculateOptionPremium 100 100 1 0.2 0.05 true
        - calculateOptionPremium 100 100 1 0.2 0.05 false
        - (100 - 100 * exp (- (0.05) * 1)))
  <= 0.000000001 * Rmax 100 (100 * exp (- (0.05) * 1)).
Proof.
  exact (proj1 (put_call_parity 100 100 1 0.2 0.05
                  ltac:(lra) ltac:(lra) ltac:(lra) ltac:(lra))).
Defined.

(** ** Exact arithmetic: rounding to cents *)

Lemma floor_bounds (x : R) : IZR (floor x) <= x < IZR (floor x) + 1.
Proof.
  unfold floor. rewrite minus_IZR. destruct (archimed x) as [A B]. lra.
Qed.

Lemma floor_unique (x : R) (n : Z) : IZR n <= x < IZR n + 1 -> floor x = n.
Proof.
  intros [L U]. destruct (floor_bounds x) as [L' U'].
  assert (A : (floor x < n + 1)%Z) by (apply lt_IZR; rewrite plus_IZR; lra).
  assert (B : (n < floor x + 1)%Z) by (apply lt_IZR; rewrite plus_IZR; lra).
  lia.
Qed.

Lemma floor_mono (x y : R) : x <= y -> (floor x <= floor y)%Z.
Proof.
  intros Hxy. destruct (floor_bounds x) as [Lx Ux], (floor_bounds y) as [Ly Uy].
  assert (A : (floor x < floor y + 1)%Z) by (apply lt_IZR; rewrite plus_IZR; lra).
  lia.
Qed.

(** [toFixed] keeps the sign apart, so rounding commutes with negation. *)
Lemma roundToCents_opp (x : R) : roundToCents (- x) = - roundToCents x.
Proof.
  unfold roundToCents. rewrite Rabs_Ropp.
  destruct (Rle_dec (10 ^ 21) (Rabs x)); [reflexivity|].
  destruct (Rlt_dec (- x) 0), (Rlt_dec x 0); try lra.
  - replace (- - x) with x by ring. reflexivity.
  - assert (x = 0) by lra. subst x. rewrite Ropp_0.
    replace (100 * 0 + / 2) with (/ 2) by lra.
    rewrite (floor_unique (/ 2) 0) by lra. lra.
Qed.

Lemma roundToCents_mono (x y : R) :
  0 <= x <= y -> roundToCents x <= roundToCents y.
Proof.
  intros [Hx Hxy]. unfold roundToCents.
  rewrite (Rabs_pos_eq x), (Rabs_pos_eq y) by lra.
  destruct (Rlt_dec x 0), (Rlt_dec y 0); try lra.
  destruct (Rle_dec (10 ^ 21) x), (Rle_dec (10 ^ 21) y); try lra.
  - destruct (floor_bounds (100 * x + / 2)) as [L U].
    assert (A : (floor (100 * x + / 2) < 100000000000000000000000 + 1)%Z).
    { apply lt_IZR. rewrite plus_IZR. lra. }
    assert (B : (floor (100 * x + / 2) <= 100000000000000000000000)%Z) by lia.
    apply IZR_le in B. lra.
  - assert (M := floor_mono (100 * x + / 2) (100 * y + / 2) ltac:(lra)).
    apply IZR_le in M. lra.
Qed.

(** ** Exact arithmetic: the payoff curve *)

Lemma generateData_loop_exact (optionType : OptionType) (K premium maxPrice step : R) :
  0 < step ->
  forall (n fuel : nat) (p : R) (data : list (PayoffPoint R)),
    (n < fuel)%nat ->
    (forall i, (i < n)%nat -> gridPrice p step i <= maxPrice) ->
    maxPrice < gridPrice p step n ->
    generateData_loop fuel optionType K premium maxPrice step p data
    = Some (data ++ map (fun i => pointAt optionType K premium (gridPrice p step i))
                        (seq 0 n)).
Proof.
  intros Hstep. induction n as [|n IH]; intros fuel p data Hfuel Hin Hout.
  - destruct fuel as [|fuel]; [lia|]. cbn [generateData_loop].
    unfold gridPrice in Hout. cbn [INR] in Hout.
    replace (nleb p maxPrice) with false
      by (symmetry; apply leb_false; lra).
    cbn [seq map]. rewrite app_nil_r. reflexivity.
  - destruct fuel as [|fuel]; [lia|]. cbn [generateData_loop].
    assert (H0 : p <= maxPrice).
    { specialize (Hin 0%nat ltac:(lia)). unfold gridPrice in Hin.
      cbn [INR] in Hin. lra. }
    replace (nleb p maxPrice) with true by (symmetry; apply leb_true; exact H0).
    assert (Hshift : forall i, gridPrice (nadd p step) step i
                               = gridPrice p step (S i)).
    { intros i. unfold gridPrice. rewrite S_INR. cbn [nadd number]. ring. }
    rewrite (IH fuel (nadd p step) _ ltac:(lia)).
    + rewrite <- app_assoc. cbn [seq map app].
      replace (gridPrice p step 0) with p by (unfold gridPrice; cbn [INR]; ring).
      rewrite <- seq_shift, map_map.
      rewrite (map_ext _ _ (fun i => f_equal (pointAt optionType K premium) (Hshift i))).
      reflexivity.
    + intros i Hi. rewrite Hshift. apply Hin. lia.
    + rewrite Hshift. exact Hout.
Qed.

Lemma generateData_range (fuel : nat) (S K premium : R) (optionType : OptionType) :
  generateData fuel S K premium optionType
  = generateData_loop fuel optionType K premium (rangeMax S K) (rangeStep S K)
      (rangeMin S K) [].
Proof.
  unfold generateData, rangeStep, rangeMax, rangeMin. exact_arith.
  replace (0 / 1) with 0 by lra. replace (75 / 100) with 0.75 by lra.
  reflexivity.
Qed.

Lemma rangeStep_pos (S K : R) : 0 < S -> 0 < K -> 0 < rangeStep S K.
Proof.
  intros HS HK. unfold rangeStep, rangeMax, rangeMin, Rmax.
  destruct (Rle_dec 0 (K - S * 0.75)); lra.
Qed.

Lemma generateData_exact (fuel : nat) (S K premium : R) (optionType : OptionType) :
  0 < S -> 0 < K -> (101 < fuel)%nat ->
  generateData fuel S K premium optionType
  = Some (map (fun i => pointAt optionType K premium
                          (gridPrice (rangeMin S K) (rangeStep S K) i))
              (seq 0 101)).
Proof.
  intros HS HK Hfuel. rewrite generateData_range.
  pose proof (rangeStep_pos S K HS HK) as Hstep.
  assert (Hend : gridPrice (rangeMin S K) (rangeStep S K) 100 = rangeMax S K).
  { unfold gridPrice, rangeStep. rewrite (INR_IZR_INZ 100). cbn. lra. }
  rewrite (generateData_loop_exact optionType K premium _ _ Hstep 101 fuel _ []
             Hfuel).
  - reflexivity.
  - intros i Hi. rewrite <- Hend. unfold gridPrice.
    assert (INR i <= INR 100) by (apply le_INR; lia). nra.
  - rewrite <- Hend. unfold gridPrice. rewrite (S_INR 100). lra.
Qed.

(** The loop, under every interpretation: the points pushed are [pointAt]
    of the prices visited, in the order visited. *)
Section LoopShape.
Context {num : Type} `{JSNumber num}.

Lemma generateData_loop_points (optionType : OptionType)
    (K premium maxPrice step : num) (fuel : nat) :
  forall (p : num) (data : list (PayoffPoint num)),
    generateData_loop fuel optionType K premium maxPrice step p data
    = option_map (fun ps => data ++ map (pointAt optionType K premium) ps)
        (sampledPrices fuel maxPrice step p).
Proof.
  induction fuel as [|fuel IH]; intros p data; cbn [generateData_loop sampledPrices].
  - reflexivity.
  - destruct (nleb p maxPrice).
    + rewrite IH. destruct (sampledPrices fuel maxPrice step (nadd p step)) as [ps|];
        cbn [option_map map]; [|reflexivity].
      rewrite <- app_assoc. reflexivity.
    + cbn [option_map map]. rewrite app_nil_r. reflexivity.
Qed.

(** More fuel does not change a result already reached. *)
Lemma generateData_loop_more_fuel (optionType : OptionType)
    (K premium maxPrice step : num) (fuel : nat) :
  forall (p : num) (data out : list (PayoffPoint num)) (fuel' : nat),
    generateData_loop fuel optionType K premium maxPrice step p data = Some out ->
    (fuel <= fuel')%nat ->
    generateData_loop fuel' optionType K premium maxPrice step p data = Some out.
Proof.
  induction fuel as [|fuel IH]; intros p data out fuel' Hrun Hle;
    cbn [generateData_loop] in Hrun; [discriminate|].
  destruct fuel' as [|fuel']; [lia|]. cbn [generateData_loop].
  destruct (nleb p maxPrice); [|exact Hrun].
  apply (IH _ _ _ _ Hrun). lia.
Qed.
End LoopShape.

Lemma payoffAt_exact (optionType : OptionType) (K premium p : R) :
  payoffAt optionType K premium p
  = match optionType with
    | call => (Rmax 0 (p - K) - premium, premium - Rmax 0 (p - K))
    | put => (Rmax 0 (K - p) - premium, premium - Rmax 0 (K - p))
    end.
Proof. unfold payoffAt. exact_arith. destruct optionType; reflexivity. Qed.

Lemma pointAt_exact (optionType : OptionType) (K premium p : R) :
  pointAt optionType K premium p
  = {| price := roundToCents p;
       buyerPayoff := roundToCents (fst (payoffAt optionType K premium p));
       sellerPayoff := roundToCents (snd (payoffAt optionType K premium p)) |}.
Proof. unfold pointAt. destruct (payoffAt optionType K premium p). reflexivity. Qed.

(** C5.  Every point of the generated curve comes from a sampled price [p];
    there, before rounding, the buyer's payoff is [max(0, p - K) - premium]
    for a call and [max(0, K - p) - premium] for a put, the seller's payoff
    is its negation, so the two add up to exactly [0]; and the two rounded
    values that are emitted add up to at most one cent in magnitude. *)
Theorem payoff_zero_sum (fuel : nat) (S K premium : R) (optionType : OptionType)
    (data : list (PayoffPoint R)) :
  generateData fuel S K premium optionType = Some data ->
  exists prices : list R,
    sampledPrices fuel (rangeMax S K) (rangeStep S K) (rangeMin S K) = Some prices
    /\ data = map (pointAt optionType K premium) prices
    /\ Forall (fun p =>
         let buyerPnL := fst (payoffAt optionType K premium p) in
         let sellerPnL := snd (payoffAt optionType K premium p) in
         let emitted := pointAt optionType K premium p in
         buyerPnL = match optionType with
                    | call => Rmax 0 (p - K) - premium
                    | put => Rmax 0 (K - p) - premium
                    end
         /\ sellerPnL = - buyerPnL
         /\ buyerPnL + sellerPnL = 0
         /\ buyerPayoff emitted = roundToCents buyerPnL
         /\ sellerPayoff emitted = roundToCents sellerPnL
         /\ Rabs (buyerPayoff emitted + sellerPayoff emitted) <= 0.01) prices.
Proof.
  rewrite generateData_range, generateData_loop_points.
  destruct (sampledPrices fuel (rangeMax S K) (rangeStep S K) (rangeMin S K))
    as [prices|]; cbn [option_map]; [|discriminate].
  intros E. injection E as <-. exists prices.
  split; [reflexivity|]. split; [reflexivity|].
  apply Forall_forall. intros p _. cbv zeta.
  rewrite pointAt_exact, payoffAt_exact. cbn [buyerPayoff sellerPayoff].
  assert (Hround : forall b : R, Rabs (roundToCents b + roundToCents (- b)) <= 0.01).
  { intros b. rewrite roundToCents_opp.
    replace (roundToCents b + - roundToCents b) with 0 by ring.
    rewrite Rabs_R0. lra. }
  destruct optionType; cbn [fst snd].
  - set (b := Rmax 0 (p - K) - premium).
    replace (premium - Rmax 0 (p - K)) with (- b) by (unfold b; ring).
    repeat split; try reflexivity; [ring | apply Hround].
  - set (b := Rmax 0 (K - p) - premium).
    replace (premium - Rmax 0 (K - p)) with (- b) by (unfold b; ring).
    repeat split; try reflexivity; [ring | apply Hround].
Qed.

(** C6, amended.  In exact arithmetic, for a positive spot price and strike
    and enough fuel for the 102 evaluations of the loop condition, the
    generator returns exactly 101 points: the [i]-th is the point at
    [min + i * step], where [min = max(0, K - 0.75 S)] is the price at
    [i = 0], [K + 0.75 S] the price at [i = 100] and [step] a hundredth of
    their distance; the prices visited increase strictly and the rounded
    prices emitted never decrease. *)
Theorem payoff_curve_sampling (fuel : nat) (S K premium : R) (optionType : OptionType) :
  0 < S -> 0 < K -> (101 < fuel)%nat ->
  let sample := gridPrice (rangeMin S K) (rangeStep S K) in
  exists data : list (PayoffPoint R),
    generateData fuel S K premium optionType = Some data
    /\ List.length data = 101%nat
    /\ (forall i, (i <= 100)%nat ->
          nth_error data i = Some (pointAt optionType K premium (sample i)))
    /\ sample 0%nat = Rmax 0 (K - 0.75 * S)
    /\ sample 100%nat = K + 0.75 * S
    /\ (forall i, sample (Datatypes.S i) - sample i = (sample 100%nat - sample 0%nat) / 100)
    /\ (forall i j, (i < j)%nat -> sample i < sample j)
    /\ (forall i j pi pj, (i <= j)%nat ->
          nth_error data i = Some pi -> nth_error data j = Some pj ->
          price pi <= price pj).
Proof.
  intros HS HK Hfuel sample.
  pose proof (rangeStep_pos S K HS HK) as Hstep.
  assert (Hmin : 0 <= rangeMin S K) by (unfold rangeMin; apply Rmax_l).
  assert (Hnth : forall i, (i <= 100)%nat ->
            nth_error (map (fun i => pointAt optionType K premium (sample i))
                         (seq 0 101)) i
            = Some (pointAt optionType K premium (sample i))).
  { intros i Hi. rewrite nth_error_map, nth_error_seq.
    destruct (Nat.ltb_spec i 101) as [_|]; [reflexivity | lia]. }
  assert (Hlt : forall i j, (i < j)%nat -> sample i < sample j).
  { intros i j Hij. unfold sample, gridPrice.
    apply lt_INR in Hij. nra. }
  exists (map (fun i => pointAt optionType K premium (sample i)) (seq 0 101)).
  split; [apply generateData_exact; assumption|].
  split; [rewrite length_map, length_seq; reflexivity|].
  split; [exact Hnth|].
  split.
  { unfold sample, gridPrice, rangeMin. cbn [INR].
    replace (K - S * 0.75) with (K - 0.75 * S) by ring. ring. }
  split.
  { unfold sample, gridPrice, rangeStep, rangeMax.
    rewrite (INR_IZR_INZ 100). cbn. lra. }
  split.
  { intros i. unfold sample, gridPrice. rewrite S_INR.
    rewrite (INR_IZR_INZ 100). cbn. lra. }
  split; [exact Hlt|].
  intros i j pi pj Hij Hi Hj.
  assert (Hj' : (j <= 100)%nat).
  { assert (Hlen : (j < List.length
                           (map (fun i => pointAt optionType K premium (sample i))
                              (seq 0 101)))%nat)
      by (apply nth_error_Some; rewrite Hj; discriminate).
    rewrite length_map, length_seq in Hlen. lia. }
  rewrite Hnth in Hi, Hj by lia.
  injection Hi as <-. injection Hj as <-.
  rewrite !pointAt_exact. cbn [price].
  apply roundToCents_mono. split.
  - unfold sample, gridPrice. pose proof (pos_INR i). nra.
  - destruct (Nat.eq_dec i j) as [->|Hne]; [lra|].
    left. apply Hlt. lia.
Qed.

Lemma payoff_zero_sum_witness :
  exists prices : list R,
    sampledPrices 102 (rangeMax 100 100) (rangeStep 100 100) (rangeMin 100 100)
    = Some prices
    /\ map (fun i => pointAt call 100 10
                       (gridPrice (rangeMin 100 100) (rangeStep 100 100) i))
           (seq 0 101)
       = map (pointAt call 100 10) prices
    /\ Forall (fun p =>
         let buyerPnL := fst (payoffAt call 100 10 p) in
         let sellerPnL := snd (payoffAt call 100 10 p) in
         let emitted := pointAt call 100 10 p in
         buyerPnL = Rmax 0 (p - 100) - 10
         /\ sellerPnL = - buyerPnL
         /\ buyerPnL + sellerPnL = 0
         /\ buyerPayoff emitted = roundToCents buyerPnL
         /\ sellerPayoff emitted = roundToCents sellerPnL
         /\ Rabs (buyerPayoff emitted + sellerPayoff emitted) <= 0.01) prices.
Proof.
  exact (payoff_zero_sum 102 100 100 10 call _
           (generateData_exact 102 100 100 10 call
              ltac:(lra) ltac:(lra) ltac:(lia))).
Defined.

Lemma payoff_curve_sampling_witness :
  exists data : list (PayoffPoint R),
    generateData 102 100 100 10 call = Some data
    /\ List.length data = 101%nat.
Proof.
  destruct (payoff_curve_sampling 102 100 100 10 call
              ltac:(lra) ltac:(lra) ltac:(lia)) as [data [Hrun [Hlen _]]].
  exists data. split; assumption.
Defined.

Section GeneratorFuel.
Context {num : Type} `{JSNumber num}.

Lemma generateData_more_fuel (fuel fuel' : nat) (S K premium : num)
    (optionType : OptionType) (data : list (PayoffPoint num)) :
  generateData fuel S K premium optionType = Some data ->
  (fuel <= fuel')%nat ->
  generateData fuel' S K premium optionType = Some data.
Proof. unfold generateData. apply generateData_loop_more_fuel. Qed.

Lemma generateData_deterministic (fuel fuel' : nat) (S K premium : num)
    (optionType : OptionType) (data data' : list (PayoffPoint num)) :
  generateData fuel S K premium optionType = Some data ->
  generateData fuel' S K premium optionType = Some data' ->
  data = data'.
Proof.
  intros H1 H2.
  apply (generateData_more_fuel _ (Nat.max fuel fuel')) in H1; [|lia].
  apply (generateData_more_fuel _ (Nat.max fuel fuel')) in H2; [|lia].
  congruence.
Qed.
End GeneratorFuel.

Section Binary64Payoff.
Import Floats.
Local Open Scope float_scope.

(** C6, as stated, fails on binary64 numbers: with spot price and strike
    both [10] the range is [[2.5, 17.5]] and the step [0.15]; adding the step
    a hundred times gives [17.500000000000012], above the upper end, so the
    loop stops after 100 points, the last one at [17.35]. *)
Lemma payoff_curve_misses_upper_end_binary64 :
  (exists data : list (PayoffPoint float),
      generateData 101 10 10 1 call = Some data
      /\ List.length data = 100%nat
      /\ option_map price (nth_error data 99) = Some 17.35)
  /\ ~ (exists (fuel : nat) (data : list (PayoffPoint float)),
          generateData fuel 10 10 1 call = Some data
          /\ List.length data = 101%nat).
Proof.
  assert (F : option_map
                (fun d => (List.length d, option_map price (nth_error d 99)))
                (generateData (num := float) 101 10 10 1 call)
              = Some (100%nat, Some 17.35))
    by (vm_compute; reflexivity).
  destruct (generateData (num := float) 101 10 10 1 call) as [d0|] eqn:E0;
    [|discriminate F].
  cbn [option_map] in F. injection F as L0 P0.
  split.
  - exists d0. repeat split; assumption.
  - intros (fuel & data & Hrun & Hlen).
    rewrite (generateData_deterministic _ _ _ _ _ _ _ _ Hrun E0) in Hlen.
    rewrite L0 in Hlen. discriminate Hlen.
Qed.

(** X3.  On binary64 numbers the loop need not end: with a spot price of [1] and a
    strike of [1e20] the range collapses to the single value [1e20], the step
    is [0], and the condition [price <= maxPrice] holds forever. *)
Lemma generateData_never_returns_binary64 (fuel : nat) (premium : float)
    (optionType : OptionType) :
  generateData fuel 1 1e20 premium optionType = None.
Proof.
  unfold generateData.
  change (Math_max (lit 0) (nsub 1e20 (nmul 1 (lit 0.75)))) with 1e20.
  change (nadd 1e20 (nmul 1 (lit 0.75))) with 1e20.
  change (ndiv (nsub 1e20 1e20) (lit 100)) with 0.
  generalize (@nil (PayoffPoint float)).
  induction fuel as [|fuel IH]; intros data; cbn [generateData_loop].
  - reflexivity.
  - change (nleb 1e20 1e20) with true. cbn iota.
    change (nadd 1e20 0) with 1e20. apply IH.
Qed.
End Binary64Payoff.


(** ** Time to expiry *)

(** C9.  The instant path and the duration path divide the elapsed days by
    the same 365: for equal elapsed time (the milliseconds between [now] and
    the expiry are a thousand times the duration's seconds) they return the
    same year fraction; in particular a duration of 24 hours and an expiry
    24 hours from now agree, whatever the clock reads. *)
Theorem year_fraction_paths_agree (now expiryDate hours minutes seconds : R) :
  expiryDate - now = 1000 * (hours * 3600 + minutes * 60 + seconds) ->
  dateToTimeToExpiry now expiryDate = durationToTimeToExpiry hours minutes seconds
  /\ dateToTimeToExpiry now expiryDate = (expiryDate - now) / 86400000 / 365
  /\ durationToTimeToExpiry hours minutes seconds
     = (hours * 3600 + minutes * 60 + seconds) / 86400 / 365
  /\ (forall clock : R,
        durationToTimeToExpiry 24 0 0
        = dateToTimeToExpiry clock (clock + 24 * 3600 * 1000)).
Proof.
  intros Helapsed. unfold dateToTimeToExpiry, durationToTimeToExpiry.
  exact_arith. rewrite Helapsed.
  repeat split; try intros clock; lra.
Qed.

Lemma year_fraction_paths_agree_witness :
  dateToTimeToExpiry 1700000000000 1700086400000 = durationToTimeToExpiry 24 0 0.
Proof.
  exact (proj1 (year_fraction_paths_agree 1700000000000 1700086400000 24 0 0
                  ltac:(lra))).
Defined.

Section Binary64Time.
Import Floats.
Local Open Scope float_scope.

(** The same comparison on binary64 numbers, at one reading of the clock and
    at a duration with fractional parts: the elapsed seconds and
    milliseconds are exact, both paths round the same quotients, and the
    results are the same value. *)
Example day_ahead_binary64 :
  durationToTimeToExpiry 24 0 0
  = dateToTimeToExpiry 1700000000000 1700086400000
  /\ durationToTimeToExpiry 1.5 30.25 10.125
     = dateToTimeToExpiry 1700000000000 1700007225125.
Proof. split; vm_compute; reflexivity. Qed.
End Binary64Time.

(** ** The volatility feed *)

Section FeedFacts.
Context {num : Type} `{JSNumber num}.

Lemma settle_settled (outcome : PromiseState num) (ws : Feed num) :
  promise ws <> Pending -> settle outcome ws = ws.
Proof. unfold settle. destruct (promise ws); [congruence | reflexivity..]. Qed.

Lemma promise_close (ws : Feed num) : promise (close ws) = promise ws.
Proof. unfold close. destruct (readyState ws); reflexivity. Qed.

Lemma promise_settle (outcome : PromiseState num) (ws : Feed num) :
  promise ws <> Pending -> promise (settle outcome ws) = promise ws.
Proof. intros Hs. rewrite settle_settled by exact Hs. reflexivity. Qed.

Lemma sent_close (ws : Feed num) : sent (close ws) = sent ws.
Proof. unfold close. destruct (readyState ws); reflexivity. Qed.

Lemma sent_settle (outcome : PromiseState num) (ws : Feed num) :
  sent (settle outcome ws) = sent ws.
Proof. unfold settle. destruct (promise ws); reflexivity. Qed.

Lemma readyState_settle (outcome : PromiseState num) (ws : Feed num) :
  readyState (settle outcome ws) = readyState ws.
Proof. unfold settle. destruct (promise ws); reflexivity. Qed.

(** Once the promise is settled and the socket has left [CONNECTING], no
    event changes the promise or sends anything, and the socket never
    reopens. *)
Lemma feedStep_after_settled (asset : string) (ws : Feed num) (ev : FeedEvent num) :
  promise ws <> Pending ->
  readyState ws = CLOSING \/ readyState ws = CLOSED ->
  promise (feedStep asset ws ev) = promise ws
  /\ sent (feedStep asset ws ev) = sent ws
  /\ (readyState (feedStep asset ws ev) = CLOSING
      \/ readyState (feedStep asset ws ev) = CLOSED).
Proof.
  intros Hs Hr. destruct ev as [|data now| | |]; cbn [feedStep].
  - destruct Hr as [Hr | Hr]; rewrite Hr; repeat split; auto.
  - destruct Hr as [Hr | Hr]; rewrite Hr; repeat split; auto.
  - unfold onerror. rewrite settle_settled by exact Hs. repeat split; auto.
  - cbn [promise sent readyState]. repeat split; auto.
  - unfold ontimeout. destruct Hr as [Hr | Hr]; rewrite Hr; repeat split; auto.
Qed.

Lemma feed_after_settled (asset : string) (events : list (FeedEvent num)) :
  forall ws : Feed num,
    promise ws <> Pending ->
    readyState ws = CLOSING \/ readyState ws = CLOSED ->
    promise (fold_left (feedStep asset) events ws) = promise ws
    /\ sent (fold_left (feedStep asset) events ws) = sent ws.
Proof.
  induction events as [|ev events IH]; intros ws Hs Hr; cbn [fold_left].
  - split; reflexivity.
  - destruct (feedStep_after_settled asset ws ev Hs Hr) as (Hp & Hsent & Hr').
    destruct (IH (feedStep asset ws ev)) as [IHp IHs];
      [rewrite Hp; exact Hs | exact Hr' |].
    rewrite IHp, IHs, Hp, Hsent. split; reflexivity.
Qed.

(** X1.  What the feed does with the first structurally valid response: one
    request was sent on open; the promise is resolved with the last row's
    value passed through [Number(value.toFixed(2))] and the clock's reading;
    the socket is closing; and nothing that happens later changes the
    promise or sends a second request. *)
Lemma fetchDVOLData_resolves_with_last_row (asset : string) (data : JSON num)
    (first : JSON num) (rest : list (JSON num)) (stamp : JSON num) (value : num)
    (more : list (JSON num)) (now : num) (later : list (FeedEvent num)) :
  getProperty data "result" = Value (JArray (first :: rest)) ->
  last (first :: rest) first = JArray (stamp :: JNumber value :: more) ->
  let ws := fetchDVOLData asset (Opened :: Message (Some data) now :: later) in
  promise ws = Resolved {| volatility := toFixed2 value; timestamp := now |}
  /\ sent ws = [{| method := "public/get_historical_volatility";
                   currency := toUpperCase asset |}]
  /\ readyState (fetchDVOLData asset [Opened; Message (Some data) now]) = CLOSING.
Proof.
  intros Hresult Hlast. cbv zeta. unfold fetchDVOLData.
  cbn [fold_left feedStep readyState onopen sent promise app].
  unfold onmessage. rewrite Hresult, Hlast.
  cbn [latestVolatilityOf nth_error].
  unfold settle, close. cbn [promise readyState sent].
  split; [|split; [|reflexivity]];
    match goal with
    | |- context [fold_left _ later ?ws] =>
        destruct (feed_after_settled asset later ws) as [Hp Hs];
          [discriminate | left; reflexivity | rewrite ?Hp, ?Hs; reflexivity]
    end.
Qed.
End FeedFacts.

Section Binary64Feed.
Import Floats.
Local Open Scope float_scope.
Local Open Scope string_scope.

(** C10, on a concrete exchange.  The response's last row carries [45.678];
    the promise is resolved with [45.68], the value rounded to two decimals,
    where truncation to two decimals gives [45.67]; one request was sent and
    the socket is closing. *)
Lemma fetchDVOLData_rounds_last_value :
  let response :=
    JObject [("jsonrpc", JString "2.0");
             ("result", JArray [JArray [JNumber 1700000000000; JNumber 44.5];
                                JArray [JNumber 1700003600000; JNumber 45.678]])] in
  fetchDVOLData "btc" [Opened; Message (Some response) 1700003601000]
  = {| readyState := CLOSING;
       sent := [{| method := "public/get_historical_volatility";
                   currency := "BTC" |}];
       promise := Resolved {| volatility := 45.68; timestamp := 1700003601000 |} |}
  /\ Binary64.truncateToCents 45.678 = 45.67
  /\ 45.68 <> 45.67.
Proof.
  cbv zeta. split; [vm_compute; reflexivity|].
  split; [vm_compute; reflexivity|].
  intros E. apply (f_equal (fun x => PrimFloat.ltb x 45.675%float)) in E. vm_compute in E.
  discriminate E.
Qed.

Lemma fetchDVOLData_resolves_with_last_row_witness :
  let data := JObject [("result", JArray [JArray [JNumber 1700003600000;
                                                  JNumber 45.5]])] in
  let ws := fetchDVOLData "eth" [Opened; Message (Some data) 1700003601000;
                                 Message (Some data) 1700003602000; TimerFired] in
  promise ws = Resolved {| volatility := toFixed2 45.5; timestamp := 1700003601000 |}
  /\ sent ws = [{| method := "public/get_historical_volatility";
                   currency := toUpperCase "eth" |}]
  /\ readyState (fetchDVOLData "eth" [Opened; Message (Some data) 1700003601000])
     = CLOSING.
Proof.
  exact (fetchDVOLData_resolves_with_last_row (num := float) "eth"
           (JObject [("result", JArray [JArray [JNumber 1700003600000;
                                                JNumber 45.5]])])
           (JArray [JNumber 1700003600000; JNumber 45.5]) []
           (JNumber 1700003600000) 45.5 [] 1700003601000
           [Message (Some (JObject [("result", JArray [JArray [JNumber 1700003600000;
                                                               JNumber 45.5]])]))
              1700003602000; TimerFired]
           eq_refl eq_refl).
Defined.
End Binary64Feed.


(** ** The volatility feed: every run *)

Section FeedRuns.
Context {num : Type} `{JSNumber num}.

Lemma getProperty_throws (v : JSON num) (name : string) :
  getProperty v name = Throws -> v = JNull.
Proof.
  destruct v as [| | | | |fields]; cbn; try discriminate; [reflexivity|].
  destruct (find _ fields); discriminate.
Qed.

(** The message handler either rejects and leaves the socket alone, or
    settles and closes. *)
Lemma onmessage_shape (data : option (JSON num)) (now : num) (ws : Feed num) :
  onmessage data now ws = settle (Rejected CaughtException) ws
  \/ exists outcome, onmessage data now ws = close (settle outcome ws).
Proof.
  unfold onmessage. destruct data as [d|]; [|left; reflexivity].
  assert (Hfail : exists outcome,
            match getProperty d "error" with
            | Value e =>
                if truthy e then
                  close (settle (Rejected (ServerError (getProperty e "message"))) ws)
                else close (settle (Rejected InvalidResponseFormat) ws)
            | _ => close (settle (Rejected InvalidResponseFormat) ws)
            end = close (settle outcome ws)).
  { destruct (getProperty d "error") as [| |e]; [eexists; reflexivity..|].
    destruct (truthy e); eexists; reflexivity. }
  destruct (getProperty d "result") as [| |v]; [left; reflexivity | right; exact Hfail |].
  destruct v as [|b|n|s0|items|fields]; try (right; exact Hfail).
  destruct items as [|first rest]; [right; exact Hfail|].
  destruct (latestVolatilityOf (last (first :: rest) first));
    [right; eexists; reflexivity | left; reflexivity].
Qed.

Lemma feedInvariant_step (asset : string) (ws : Feed num) (ev : FeedEvent num) :
  feedInvariant asset ws -> feedInvariant asset (feedStep asset ws ev).
Proof.
  unfold feedInvariant. intros Inv.
  destruct ev as [|data now| | |]; cbn [feedStep].
  - destruct (readyState ws) eqn:R; try (rewrite R; exact Inv).
    unfold onopen. cbn [readyState sent promise]. destruct Inv as [-> Hp].
    split; [reflexivity|]. intros r. destruct Hp as [-> | ->]; discriminate.
  - destruct (readyState ws) eqn:R; try (rewrite R; exact Inv).
    destruct Inv as [Hs Hp].
    destruct (onmessage_shape data now ws) as [-> | [outcome ->]].
    + rewrite readyState_settle, R, sent_settle. split; [exact Hs|].
      intros r. unfold settle. destruct (promise ws) eqn:P; cbn [promise];
        rewrite ?P; try discriminate. exact (Hp r).
    + unfold close. rewrite readyState_settle, R. cbn [readyState sent].
      rewrite sent_settle. exact Hs.
  - unfold onerror. rewrite readyState_settle, sent_settle.
    destruct (readyState ws) eqn:R; try exact Inv.
    + destruct Inv as [Hs Hp]. split; [exact Hs|].
      unfold settle. destruct Hp as [P | P]; rewrite P; cbn [promise]; auto.
    + destruct Inv as [Hs Hp]. split; [exact Hs|].
      intros r. unfold settle. destruct (promise ws) eqn:P; cbn [promise];
        rewrite ?P; try discriminate. exact (Hp r).
    + destruct Inv as [Hs | [Hs Hp]]; [left; exact Hs|]. right.
      split; [exact Hs|].
      intros r. unfold settle. destruct (promise ws) eqn:P; cbn [promise];
        rewrite ?P; try discriminate. exact (Hp r).
  - cbn [readyState sent promise].
    destruct (readyState ws) eqn:R.
    + right. destruct Inv as [Hs Hp]. split; [exact Hs|].
      intros r. destruct Hp as [-> | ->]; discriminate.
    + left. exact (proj1 Inv).
    + left. exact Inv.
    + exact Inv.
  - unfold ontimeout. destruct (readyState ws) eqn:R; try (rewrite R; exact Inv).
    rewrite readyState_settle. unfold close. rewrite R. cbn [readyState].
    rewrite sent_settle. cbn [sent]. exact (proj1 Inv).
Qed.

Lemma feedInvariant_run (asset : string) (events : list (FeedEvent num)) :
  forall ws : Feed num,
    feedInvariant asset ws ->
    feedInvariant asset (fold_left (feedStep asset) events ws).
Proof.
  induction events as [|ev events IH]; intros ws Inv; cbn [fold_left].
  - exact Inv.
  - apply IH, feedInvariant_step, Inv.
Qed.

(** X4.  Whatever reaches the socket, in whatever order: at most one
    request is ever sent, and it is the historical-volatility request for
    the upper-cased asset; nothing is sent while the socket is connecting;
    while the socket is open exactly that request is outstanding; and a
    promise is resolved only with that request sent and the socket closing
    or closed. *)
Theorem fetchDVOLData_one_request_per_socket (asset : string)
    (events : list (FeedEvent num)) :
  let ws := fetchDVOLData asset events in
  (sent ws = [] \/ sent ws = [feedRequest asset])
  /\ (readyState ws = CONNECTING -> sent ws = [])
  /\ (readyState ws = OPEN -> sent ws = [feedRequest asset])
  /\ (forall r, promise ws = Resolved r ->
        sent ws = [feedRequest asset]
        /\ (readyState ws = CLOSING \/ readyState ws = CLOSED)).
Proof.
  cbv zeta. unfold fetchDVOLData.
  assert (Inv : feedInvariant asset
                  (fold_left (feedStep asset) events
                     {| readyState := CONNECTING; sent := []; promise := Pending |})).
  { apply feedInvariant_run. unfold feedInvariant. cbn. auto. }
  revert Inv. generalize (fold_left (feedStep asset) events
    {| readyState := CONNECTING; sent := []; promise := @Pending num |}).
  intros ws Inv. unfold feedInvariant in Inv.
  destruct (readyState ws) eqn:R.
  - destruct Inv as [Hs Hp].
    repeat split; intros; auto; try discriminate;
      destruct Hp as [P | P]; congruence.
  - destruct Inv as [Hs Hp].
    repeat split; intros; auto; try discriminate;
      exfalso; eapply Hp; eassumption.
  - repeat split; intros; auto; discriminate.
  - destruct Inv as [Hs | [Hs Hp]].
    + repeat split; intros; auto; discriminate.
    + repeat split; intros; auto; try discriminate;
        exfalso; eapply Hp; eassumption.
Qed.

Lemma promise_onmessage (data : option (JSON num)) (now : num) (ws : Feed num) :
  promise ws <> Pending -> promise (onmessage data now ws) = promise ws.
Proof.
  intros Hs. destruct (onmessage_shape data now ws) as [-> | [outcome ->]].
  - apply promise_settle, Hs.
  - rewrite promise_close. apply promise_settle, Hs.
Qed.

(** A settled promise stays as it is, whatever the socket's state. *)
Lemma promise_settled_step (asset : string) (ws : Feed num) (ev : FeedEvent num) :
  promise ws <> Pending -> promise (feedStep asset ws ev) = promise ws.
Proof.
  intros Hs. destruct ev as [|data now| | |]; cbn [feedStep].
  - destruct (readyState ws); reflexivity.
  - destruct (readyState ws); try reflexivity. apply promise_onmessage, Hs.
  - apply promise_settle, Hs.
  - reflexivity.
  - unfold ontimeout. destruct (readyState ws); try reflexivity.
    rewrite promise_settle; rewrite promise_close; [reflexivity | exact Hs].
Qed.

Lemma promise_settled_run (asset : string) (events : list (FeedEvent num)) :
  forall ws : Feed num,
    promise ws <> Pending ->
    promise (fold_left (feedStep asset) events ws) = promise ws.
Proof.
  induction events as [|ev events IH]; intros ws Hs; cbn [fold_left].
  - reflexivity.
  - rewrite IH; rewrite promise_settled_step by exact Hs; [reflexivity | exact Hs].
Qed.

(** Once the socket has left [CONNECTING] it never returns there and
    nothing more is sent. *)
Lemma sent_after_open_step (asset : string) (ws : Feed num) (ev : FeedEvent num) :
  readyState ws <> CONNECTING ->
  sent (feedStep asset ws ev) = sent ws
  /\ readyState (feedStep asset ws ev) <> CONNECTING.
Proof.
  intros Hr. destruct ev as [|data now| | |]; cbn [feedStep].
  - destruct (readyState ws) eqn:R; [congruence | rewrite R; split; [reflexivity | discriminate]..].
  - destruct (readyState ws) eqn:R; try (rewrite R; split; [reflexivity | discriminate]);
      [congruence|].
    destruct (onmessage_shape data now ws) as [-> | [outcome ->]].
    + rewrite sent_settle, readyState_settle, R. split; [reflexivity | discriminate].
    + rewrite sent_close, sent_settle. split; [reflexivity|].
      unfold close. rewrite readyState_settle, R. cbn [readyState]. discriminate.
  - unfold onerror. rewrite sent_settle, readyState_settle. split; [reflexivity | exact Hr].
  - cbn [sent readyState]. split; [reflexivity | discriminate].
  - unfold ontimeout. destruct (readyState ws) eqn:R;
      try (rewrite R; split; [reflexivity | discriminate]); [congruence|].
    rewrite sent_settle, sent_close, readyState_settle. split; [reflexivity|].
    unfold close. rewrite R. cbn [readyState]. discriminate.
Qed.

Lemma sent_after_open_run (asset : string) (events : list (FeedEvent num)) :
  forall ws : Feed num,
    readyState ws <> CONNECTING ->
    sent (fold_left (feedStep asset) events ws) = sent ws.
Proof.
  induction events as [|ev events IH]; intros ws Hr; cbn [fold_left].
  - reflexivity.
  - destruct (sent_after_open_step asset ws ev Hr) as [Hs Hr'].
    rewrite IH by exact Hr'. exact Hs.
Qed.

(** A socket that is closing or closed is never open again. *)
Lemma closing_stays_closing_step (asset : string) (ws : Feed num) (ev : FeedEvent num) :
  readyState ws = CLOSING \/ readyState ws = CLOSED ->
  readyState (feedStep asset ws ev) = CLOSING
  \/ readyState (feedStep asset ws ev) = CLOSED.
Proof.
  intros Hr. destruct ev as [|data now| | |]; cbn [feedStep].
  - destruct Hr as [Hr | Hr]; rewrite Hr; rewrite Hr; auto.
  - destruct Hr as [Hr | Hr]; rewrite Hr; rewrite Hr; auto.
  - unfold onerror. rewrite readyState_settle. exact Hr.
  - cbn [readyState]. auto.
  - unfold ontimeout. destruct Hr as [Hr | Hr]; rewrite Hr; rewrite Hr; auto.
Qed.

Lemma closing_stays_closing_run (asset : string) (events : list (FeedEvent num)) :
  forall ws : Feed num,
    readyState ws = CLOSING \/ readyState ws = CLOSED ->
    readyState (fold_left (feedStep asset) events ws) <> OPEN.
Proof.
  induction events as [|ev events IH]; intros ws Hr; cbn [fold_left].
  - destruct Hr as [Hr | Hr]; rewrite Hr; discriminate.
  - apply IH, closing_stays_closing_step, Hr.
Qed.

(** X5.  A first response that is an object (or any JSON value other than
    [null]) without a non-empty result array rejects the promise: with the
    payload's message when the response has a truthy [error], with "Invalid
    response format" otherwise (an empty result array included).  The
    request was sent once, the socket is closing right after the message,
    and later events change neither the promise nor what was sent. *)
Theorem fetchDVOLData_rejects_unusable_response (asset : string)
    (data : JSON num) (now : num) (later : list (FeedEvent num)) :
  data <> JNull ->
  (forall first rest, getProperty data "result" <> Value (JArray (first :: rest))) ->
  let ws := fetchDVOLData asset (Opened :: Message (Some data) now :: later) in
  promise ws
  = Rejected match getProperty data "error" with
             | Value e =>
                 if truthy e then ServerError (getProperty e "message")
                 else InvalidResponseFormat
             | _ => InvalidResponseFormat
             end
  /\ sent ws = [feedRequest asset]
  /\ readyState (fetchDVOLData asset [Opened; Message (Some data) now]) = CLOSING.
Proof.
  intros Hnull Hresult. cbv zeta. unfold fetchDVOLData.
  cbn [fold_left feedStep readyState onopen sent promise app].
  pose (opened := {| readyState := OPEN;
                     sent := [{| method := "public/get_historical_volatility";
                                 currency := toUpperCase asset |}];
                     promise := @Pending num |}).
  change (onopen asset {| readyState := CONNECTING; sent := []; promise := Pending |})
    with opened.
  assert (Hmsg : onmessage (Some data) now opened
                 = close (settle
                            (Rejected match getProperty data "error" with
                                      | Value e =>
                                          if truthy e
                                          then ServerError (getProperty e "message")
                                          else InvalidResponseFormat
                                      | _ => InvalidResponseFormat
                                      end) opened)).
  { unfold onmessage.
    destruct (getProperty data "result") as [| |v] eqn:R.
    - exfalso. exact (Hnull (getProperty_throws _ _ R)).
    - destruct (getProperty data "error") as [| |e]; try reflexivity.
      destruct (truthy e); reflexivity.
    - destruct v as [|b|n|s0|items|fields];
        try (destruct (getProperty data "error") as [| |e]; try reflexivity;
             destruct (truthy e); reflexivity).
      destruct items as [|first rest].
      + destruct (getProperty data "error") as [| |e]; try reflexivity.
        destruct (truthy e); reflexivity.
      + exfalso. exact (Hresult first rest eq_refl). }
  rewrite Hmsg. unfold settle, close, opened. cbn [promise readyState sent].
  split; [|split; [|reflexivity]].
  - rewrite promise_settled_run; [reflexivity | discriminate].
  - rewrite sent_after_open_run; [reflexivity | discriminate].
Qed.


(** X7.  The five-second timer.  Fired on an open socket with the promise
    still pending it rejects with the timeout error and closes the socket;
    after that no event reopens the socket, changes the promise or sends
    anything.  Fired before the socket has opened it does nothing at all: the
    rest of the run is as if there had been no timer, so a socket that opens
    late stays open, its promise pending, until a message or an error
    arrives. *)
Theorem fetchDVOLData_timeout (asset : string) (events : list (FeedEvent num)) :
  (let ws := fetchDVOLData asset (Opened :: TimerFired :: events) in
   promise ws = Rejected WebSocketTimeout
   /\ sent ws = [feedRequest asset]
   /\ readyState ws <> OPEN)
  /\ fetchDVOLData asset (TimerFired :: events) = fetchDVOLData asset events
  /\ (let late := fetchDVOLData asset [TimerFired; Opened] in
      readyState late = OPEN /\ promise late = Pending).
Proof.
  cbv zeta. unfold fetchDVOLData.
  cbn [fold_left feedStep readyState onopen ontimeout sent promise app].
  unfold settle, close. cbn [promise readyState sent].
  repeat split.
  - rewrite promise_settled_run; [reflexivity | discriminate].
  - rewrite sent_after_open_run; [reflexivity | discriminate].
  - apply closing_stays_closing_run. left. reflexivity.
Qed.
End FeedRuns.

(** ** Exact arithmetic: more on the distribution functions and the Greeks *)

Lemma erfPoly_le_at_1 (t : R) : 0 <= t <= 1 -> erfPoly t <= erfPoly 1.
Proof.
  intros [H0 H1]. rewrite erfPoly_1. unfold erfPoly.
  assert (Hq : 0 <= 0.999999999 + 0.745170407 * t + 1.029667143 * (t * t)
                    - 0.391746598 * (t * t * t) + 1.061405429 * (t * t * t * t)).
  { assert (0 <= t * t) by nra.
    assert (t * t * t <= t * t) by nra.
    assert (0 <= t * t * t * t) by nra.
    nra. }
  assert (Hf : 0.999999999
               - ((((1.061405429 * t + -1.453152027) * t + 1.421413741) * t
                   + -0.284496736) * t + 0.254829592) * t
               = (1 - t)
                 * (0.999999999 + 0.745170407 * t + 1.029667143 * (t * t)
                    - 0.391746598 * (t * t * t) + 1.061405429 * (t * t * t * t)))
    by (rewrite ?Q2R_frac; field).
  assert (0 <= (1 - t)
               * (0.999999999 + 0.745170407 * t + 1.029667143 * (t * t)
                  - 0.391746598 * (t * t * t) + 1.061405429 * (t * t * t * t)))
    by (apply Rmult_le_pos; lra).
  lra.
Qed.

(** On the non-negative half line the approximated error function is
    positive. *)
Lemma erfApprox_pos (y : R) : 0 <= y -> 0 < erfApprox y.
Proof.
  intros Hy. unfold erfApprox.
  set (t := 1 / (1 + 0.3275911 * y)).
  assert (Ht : 0 < t <= 1).
  { unfold t. split.
    - apply Rdiv_lt_0_compat; lra.
    - apply (Rmult_le_reg_r (1 + 0.3275911 * y)); [lra|].
      unfold Rdiv. rewrite Rmult_assoc, Rinv_l by lra. lra. }
  pose proof (erfPoly_pos t Ht) as P0.
  pose proof (erfPoly_le_at_1 t ltac:(lra)) as P1. rewrite erfPoly_1 in P1.
  pose proof (exp_pos (- y * y)) as E0.
  assert (E1 : exp (- y * y) <= 1).
  { rewrite <- exp_0. destruct (Req_dec y 0) as [->|Hn].
    - replace (- 0 * 0) with 0 by ring. lra.
    - left. apply exp_increasing. nra. }
  nra.
Qed.

(** X8.  In exact arithmetic [normalCDF] is above one half exactly on the
    non-negative half line: [normalCDF x > 1/2] when [0 <= x] and
    [normalCDF x < 1/2] when [x < 0]. *)
Theorem normalCDF_above_half_iff_nonnegative (x : R) :
  (0 <= x -> 1 / 2 < normalCDF x)
  /\ (x < 0 -> normalCDF x < 1 / 2)
  /\ (1 / 2 < normalCDF x <-> 0 <= x).
Proof.
  rewrite normalCDF_eq.
  assert (Hy : 0 <= Rabs x / sqrt 2).
  { apply Rmult_le_pos; [apply Rabs_pos|]. left. apply Rinv_0_lt_compat, sqrt2_pos. }
  pose proof (erfApprox_pos _ Hy) as E.
  destruct (Rlt_dec x 0) as [Hneg | Hpos]; repeat split; intros; lra.
Qed.

Lemma normalPDF_0 : normalPDF 0 = 1 / sqrt (2 * PI).
Proof.
  rewrite normalPDF_eq. replace (- (0 * 0) / 2) with 0 by lra.
  rewrite exp_0. reflexivity.
Qed.

(** X9.  In exact arithmetic [normalPDF] is an even function, positive
    everywhere, largest at [0], where it is [1 / sqrt (2 pi)], and
    decreasing in the magnitude of its argument. *)
Theorem normalPDF_shape (x y : R) :
  normalPDF (- x) = normalPDF x
  /\ 0 < normalPDF x <= normalPDF 0
  /\ normalPDF 0 = 1 / sqrt (2 * PI)
  /\ (Rabs x <= Rabs y -> normalPDF y <= normalPDF x).
Proof.
  assert (Hs : 0 < sqrt (2 * PI)).
  { apply sqrt_lt_R0. pose proof PI_RGT_0. lra. }
  assert (Hmono : forall a b, a * a <= b * b -> normalPDF b <= normalPDF a).
  { intros a b Hab. rewrite !normalPDF_eq.
    apply Rmult_le_compat_r; [left; apply Rinv_0_lt_compat, Hs|].
    destruct (Req_dec (a * a) (b * b)) as [E | N].
    - rewrite E. lra.
    - left. apply exp_increasing. lra. }
  split; [rewrite !normalPDF_eq; f_equal; f_equal; lra|].
  split; [split; [apply normalPDF_pos | apply Hmono; nra]|].
  split; [apply normalPDF_0|].
  intros Habs. apply Hmono.
  pose proof (Rabs_pos x). pose proof (Rabs_pos y).
  replace (x * x) with (Rabs x * Rabs x)
    by (rewrite <- Rabs_mult; apply Rabs_pos_eq; nra).
  replace (y * y) with (Rabs y * Rabs y)
    by (rewrite <- Rabs_mult; apply Rabs_pos_eq; nra).
  nra.
Qed.

(** X10.  In exact arithmetic, on every valid contract, the Greeks of the
    call and of the put are tied together: the deltas differ by exactly [1];
    and when [d2] is not [0] the daily thetas differ by [r K e^(-rT) / 365]
    and the rhos by [K T e^(-rT) / 100]. *)
Theorem greeks_call_put_relations (S K T sigma r : R) :
  0 < S -> 0 < K -> 0 < T -> 0 < sigma ->
  let c := calculateGreeks S K T sigma r true in
  let p := calculateGreeks S K T sigma r false in
  delta c - delta p = 1
  /\ (d2 S K T sigma r <> 0 ->
      theta p - theta c = r * K * exp (- r * T) / 365
      /\ rho c - rho p = K * T * exp (- r * T) / 100).
Proof.
  intros HS HK HT Hs. cbv zeta.
  rewrite !(greeks_closed_form S K T sigma r _ HS HK HT Hs).
  cbv [delta gamma theta vega rho].
  split; [lra|]. intros Hd2.
  pose proof (normalCDF_reflect _ Hd2) as Hpair.
  set (N2 := normalCDF (d2 S K T sigma r)) in *.
  set (N2' := normalCDF (- d2 S K T sigma r)) in *.
  replace N2' with (1 - N2) by lra.
  assert (HsqT : sqrt T <> 0) by (apply Rgt_not_eq, sqrt_lt_R0; exact HT).
  split; field; exact HsqT.
Qed.

Lemma greeks_call_put_relations_witness :
  delta (calculateGreeks 100 100 1 0.2 0.05 true)
  - delta (calculateGreeks 100 100 1 0.2 0.05 false) = 1.
Proof.
  exact (proj1 (greeks_call_put_relations 100 100 1 0.2 0.05
                  ltac:(lra) ltac:(lra) ltac:(lra) ltac:(lra))).
Defined.

(** X11.  In exact arithmetic an option whose expiry instant is not after
    the clock's reading has a time to expiry that is not positive, and the
    engine prices it at [0] with all Greeks [0], whatever the other inputs. *)
Theorem expired_option_prices_at_zero (now expiryDate S K sigma r : R)
    (isCall : bool) :
  expiryDate <= now ->
  dateToTimeToExpiry now expiryDate <= 0
  /\ calculateOptionPremium S K (dateToTimeToExpiry now expiryDate) sigma r isCall = 0
  /\ calculateGreeks S K (dateToTimeToExpiry now expiryDate) sigma r isCall
     = {| delta := 0; gamma := 0; theta := 0; vega := 0; rho := 0 |}.
Proof.
  intros Hpast.
  assert (HT : dateToTimeToExpiry now expiryDate <= 0).
  { unfold dateToTimeToExpiry. exact_arith. lra. }
  split; [exact HT|].
  assert (Hbad : invalidInputs S K (dateToTimeToExpiry now expiryDate) sigma = true).
  { apply invalidInputs_true. right; right; left.
    apply leb_true. cbv [lit number]. rewrite Q2R_0. exact HT. }
  unfold calculateOptionPremium, calculateGreeks. rewrite Hbad.
  cbv [lit number]. rewrite Q2R_0. split; reflexivity.
Qed.

Lemma expired_option_prices_at_zero_witness :
  calculateOptionPremium 100 90 (dateToTimeToExpiry 1700000000000 1699990000000)
    0.5 0.05 true = 0.
Proof.
  exact (proj1 (proj2 (expired_option_prices_at_zero
                         1700000000000 1699990000000 100 90 0.5 0.05 true
                         ltac:(lra)))).
Defined.

(** ** Exact arithmetic: the shape of the payoff curve *)

Lemma roundToCents_error (x : R) : Rabs (roundToCents x - x) <= 0.005.
Proof.
  unfold roundToCents.
  destruct (Rle_dec (10 ^ 21) (Rabs x)).
  - replace (x - x) with 0 by ring. rewrite Rabs_R0. lra.
  - destruct (Rlt_dec x 0).
    + destruct (floor_bounds (100 * - x + / 2)) as [L U].
      apply Rabs_le. lra.
    + destruct (floor_bounds (100 * x + / 2)) as [L U].
      apply Rabs_le. lra.
Qed.

(** X12.  The payoff at a price [p], before rounding: the buyer never loses
    more than the premium and the seller never gains more than it; out of the
    money (at or below the strike for a call, at or above it for a put) the
    buyer's payoff is exactly minus the premium; in the money it is the
    distance to the strike minus the premium; and with a positive premium
    the buyer breaks even exactly at strike plus premium for a call and
    strike minus premium for a put. *)
Theorem payoff_profile (optionType : OptionType) (K premium p : R) :
  let buyerPnL := fst (payoffAt optionType K premium p) in
  let sellerPnL := snd (payoffAt optionType K premium p) in
  let outOfTheMoney := match optionType with call => p <= K | put => K <= p end in
  let breakEven := match optionType with call => K + premium | put => K - premium end in
  - premium <= buyerPnL
  /\ sellerPnL <= premium
  /\ (outOfTheMoney -> buyerPnL = - premium /\ sellerPnL = premium)
  /\ (~ outOfTheMoney -> buyerPnL = Rabs (p - K) - premium)
  /\ (0 < premium -> (buyerPnL = 0 <-> p = breakEven)).
Proof.
  cbv zeta. rewrite payoffAt_exact.
  destruct optionType; cbn [fst snd]; unfold Rmax, Rabs;
    repeat match goal with
           | |- context [Rle_dec ?a ?b] => destruct (Rle_dec a b)
           | |- context [Rcase_abs ?a] => destruct (Rcase_abs a)
           end;
    repeat split; intros; lra.
Qed.

(** X13.  Every number of an emitted point is within half a cent of the
    value the loop computed: the price, the buyer's payoff and the seller's
    payoff. *)
Theorem emitted_points_within_half_a_cent (optionType : OptionType)
    (K premium p : R) :
  let unrounded := payoffAt optionType K premium p in
  let emitted := pointAt optionType K premium p in
  Rabs (price emitted - p) <= 0.005
  /\ Rabs (buyerPayoff emitted - fst unrounded) <= 0.005
  /\ Rabs (sellerPayoff emitted - snd unrounded) <= 0.005.
Proof.
  cbv zeta. rewrite pointAt_exact. cbn [price buyerPayoff sellerPayoff].
  repeat split; apply roundToCents_error.
Qed.

(** A loop whose condition holds and whose step leaves the loop variable
    where it is uses up any fuel. *)
Section StuckLoop.
Context {num : Type} `{JSNumber num}.

Lemma generateData_loop_stuck (optionType : OptionType)
    (K premium maxPrice step p : num) :
  nleb p maxPrice = true -> nadd p step = p ->
  forall (fuel : nat) (data : list (PayoffPoint num)),
    generateData_loop fuel optionType K premium maxPrice step p data = None.
Proof.
  intros Hle Hstep fuel. induction fuel as [|fuel IH]; intros data;
    cbn [generateData_loop]; [reflexivity|].
  rewrite Hle, Hstep. apply IH.
Qed.
End StuckLoop.

Lemma generateData_zero_spot (fuel : nat) (K premium : R) (optionType : OptionType) :
  0 <= K -> generateData fuel 0 K premium optionType = None.
Proof.
  intros HK. rewrite generateData_range.
  assert (Hmax : rangeMax 0 K = K) by (unfold rangeMax; lra).
  assert (Hmin : rangeMin 0 K = K).
  { unfold rangeMin. replace (K - 0 * 0.75) with K by lra.
    apply Rmax_right. exact HK. }
  assert (Hstep : rangeStep 0 K = 0).
  { unfold rangeStep. rewrite Hmax, Hmin. lra. }
  rewrite Hmax, Hmin, Hstep.
  apply generateData_loop_stuck.
  - apply leb_true. lra.
  - cbn [nadd number]. lra.
Qed.

(** X14.  Clearing the spot-price field sets the spot price to [0]; with a
    strike that is not negative the sampling range of the payoff graph then
    collapses to the strike alone, the step is [0], and the loop that builds
    the graph's data never ends: it returns for no amount of fuel. *)
Theorem cleared_spot_price_hangs_payoff_graph (fuel : nat)
    (st : Calculator.Form (num := R)) :
  0 <= Calculator.strikePrice st ->
  Calculator.spotPrice (Calculator.onSpotPriceChange EmptyText st) = 0
  /\ Calculator.payoffGraphData fuel (Calculator.onSpotPriceChange EmptyText st)
     = None.
Proof.
  intros HK.
  unfold Calculator.onSpotPriceChange, Calculator.handleNumericInput,
    Calculator.payoffGraphData.
  cbn [Calculator.setSpotPrice Calculator.spotPrice Calculator.strikePrice
       Calculator.premium Calculator.optionType].
  assert (Z0 : lit 0 = 0) by (cbv [lit number]; apply Q2R_0).
  rewrite Z0. split; [reflexivity|].
  apply generateData_zero_spot. exact HK.
Qed.

Lemma cleared_spot_price_hangs_payoff_graph_witness :
  Calculator.payoffGraphData 1000
    (Calculator.onSpotPriceChange EmptyText (Calculator.initialForm (num := R)))
  = None.
Proof.
  refine (proj2 (cleared_spot_price_hangs_payoff_graph 1000
                   Calculator.initialForm _)).
  cbn [Calculator.strikePrice Calculator.initialForm]. exact_arith. lra.
Defined.

(** ** The calculator component *)

Lemma lit_0_exact : lit (num := R) 0 = 0.
Proof. cbv [lit number]. apply Q2R_0. Qed.







(** X16.  The recalculation, in exact arithmetic.  With a positive spot
    price, strike, volatility and time to expiry it stores the premium and
    the Greeks of the closed forms, taken at the volatility and the rate
    divided by [100] (the form holds percentages), and changes nothing else;
    the engine's own guard does not fire.  When one of the four is not
    positive it leaves the form as it is, so the premium and the Greeks on
    display are those of the last valid inputs. *)
Theorem calculation_uses_percentages (now expiryDateTime : R)
    (st : Calculator.Form (num := R)) :
  let T := match Calculator.timeMethod st with
           | byDate => dateToTimeToExpiry now expiryDateTime
           | byDuration =>
               durationToTimeToExpiry (Calculator.hours st) (Calculator.minutes st)
                 (Calculator.seconds st)
           end in
  let S := Calculator.spotPrice st in
  let K := Calculator.strikePrice st in
  let sigma := Calculator.volatility st / 100 in
  let r := Calculator.riskFreeRate st / 100 in
  let isCall := match Calculator.optionType st with call => true | put => false end in
  let st' := Calculator.calculationEffect now expiryDateTime st in
  (0 < S /\ 0 < K /\ 0 < Calculator.volatility st /\ 0 < T ->
   Calculator.premium st'
   = (if isCall then
        S * normalCDF (d1 S K T sigma r) - K * exp (- r * T) * normalCDF (d2 S K T sigma r)
      else
        K * exp (- r * T) * normalCDF (- d2 S K T sigma r)
        - S * normalCDF (- d1 S K T sigma r))
   /\ Calculator.greeks st' = calculateGreeks S K T sigma r isCall
   /\ st' = Calculator.setResults (Calculator.premium st') (Calculator.greeks st') st)
  /\ (S <= 0 \/ K <= 0 \/ Calculator.volatility st <= 0 \/ T <= 0 -> st' = st).
Proof.
  cbv zeta. unfold Calculator.calculationEffect.
  set (T := match Calculator.timeMethod st with
            | byDate => dateToTimeToExpiry now expiryDateTime
            | byDuration =>
                durationToTimeToExpiry (Calculator.hours st) (Calculator.minutes st)
                  (Calculator.seconds st)
            end).
  assert (Hpct : forall x : R, ndiv x (lit 100) = x / 100).
  { intros x. exact_arith. reflexivity. }
  rewrite !Hpct, !lit_0_exact.
  split.
  - intros (HS & HK & Hv & HT).
    replace (nleb (Calculator.spotPrice st) 0) with false
      by (symmetry; apply leb_false; exact HS).
    replace (nleb (Calculator.strikePrice st) 0) with false
      by (symmetry; apply leb_false; exact HK).
    replace (nleb (Calculator.volatility st) 0) with false
      by (symmetry; apply leb_false; exact Hv).
    replace (nleb T 0) with false by (symmetry; apply leb_false; exact HT).
    cbn [orb]. cbn [Calculator.setResults Calculator.premium Calculator.greeks].
    split; [|split; reflexivity].
    apply premium_closed_form; try assumption. lra.
  - intros Hbad.
    assert (Hguard : nleb (Calculator.spotPrice st) 0
                     || nleb (Calculator.strikePrice st) 0
                     || nleb (Calculator.volatility st) 0
                     || nleb T 0 = true).
    { rewrite !orb_true_iff.
      destruct Hbad as [B | [B | [B | B]]]; apply leb_true in B; auto. }
    rewrite Hguard. reflexivity.
Qed.

Section ComponentFacts.
Context {num : Type} `{JSNumber num}.

Lemma fetchDVOLData_promise_resolved (asset : string) (data : JSON num)
    (first : JSON num) (rest : list (JSON num)) (stamp : JSON num) (value : num)
    (more : list (JSON num)) (now : num) (later : list (FeedEvent num)) :
  getProperty data "result" = Value (JArray (first :: rest)) ->
  last (first :: rest) first = JArray (stamp :: JNumber value :: more) ->
  promise (fetchDVOLData asset (Opened :: Message (Some data) now :: later))
  = Resolved {| volatility := toFixed2 value; timestamp := now |}.
Proof.
  intros Hresult Hlast. unfold fetchDVOLData.
  cbn [fold_left feedStep readyState onopen sent promise app].
  unfold onmessage. rewrite Hresult, Hlast.
  cbn [latestVolatilityOf nth_error].
  unfold settle, close. cbn [promise readyState sent].
  rewrite promise_settled_run; [reflexivity | discriminate].
Qed.

(** X17.  One poll of the feed while it is switched on for BTC or ETH: when
    the socket opens and the first message carries a non-empty result whose
    last row holds a number at index 1, the form's volatility becomes that
    number rounded to two decimals, the same number is stored as the asset's
    entry of the feed data, the other asset's entry is kept, and the socket
    of the poll has been opened. *)
Theorem updateDVOL_stores_feed_value (st : Calculator.Form) (data : JSON num)
    (first : JSON num) (rest : list (JSON num)) (stamp : JSON num) (value : num)
    (more : list (JSON num)) (now : num) (later : list (FeedEvent num)) :
  Calculator.useDVOL st = true ->
  supportsDVOL (Calculator.selectedAsset st) = true ->
  getProperty data "result" = Value (JArray (first :: rest)) ->
  last (first :: rest) first = JArray (stamp :: JNumber value :: more) ->
  let events := Opened :: Message (Some data) now :: later in
  let st' := fst (Calculator.updateDVOL events st) in
  st' = Calculator.setVolatility (toFixed2 value)
          (Calculator.setDvolData (Calculator.selectedAsset st) (toFixed2 value) st)
  /\ Calculator.volatility st' = toFixed2 value
  /\ match Calculator.selectedAsset st with
     | BTC => Calculator.dvolBtc st' = Some (toFixed2 value)
              /\ Calculator.dvolEth st' = Calculator.dvolEth st
     | _ => Calculator.dvolEth st' = Some (toFixed2 value)
            /\ Calculator.dvolBtc st' = Calculator.dvolBtc st
     end
  /\ snd (Calculator.updateDVOL events st)
     = Some (fetchDVOLData (assetName (Calculator.selectedAsset st)) events).
Proof.
  intros Hon Hasset Hresult Hlast. cbv zeta. unfold Calculator.updateDVOL.
  rewrite Hon, Hasset. cbn [andb].
  rewrite (fetchDVOLData_promise_resolved _ data first rest stamp value more now
             later Hresult Hlast).
  cbn [fst snd]. split; [reflexivity|]. split; [reflexivity|].
  split; [|reflexivity].
  destruct (Calculator.selectedAsset st); try discriminate Hasset;
    split; reflexivity.
Qed.

(** X18.  Choosing an asset other than the placeholder, followed by the
    effect that runs once the selection has changed: the asset is selected
    and its price is requested under an identifier, and announced under a
    display name, that the tables define; the feed stays on only if it was on and the new asset is BTC or ETH; and
    unless it stays on, the volatility in the form is replaced by [100]. *)
Theorem asset_selection_resets_volatility (value : Asset) (st : Calculator.Form) :
  value <> SELECT ->
  let st' := Calculator.assetChangedEffect
               (fst (Calculator.handleAssetSelection value st)) in
  let feedStaysOn := Calculator.useDVOL st && supportsDVOL value in
  Calculator.selectedAsset st' = value
  /\ snd (Calculator.handleAssetSelection value st) = Some value
  /\ (exists id name,
        getAssetId value = Some id /\ getAssetDisplayName value = Some name)
  /\ Calculator.useDVOL st' = feedStaysOn
  /\ Calculator.volatility st'
     = (if feedStaysOn then Calculator.volatility st else lit 100).
Proof.
  intros Hvalue. cbv zeta.
  destruct st as [asset S K sigma feedOn btc eth r side method h m s p g].
  unfold Calculator.assetChangedEffect, Calculator.handleAssetSelection.
  destruct value; try (exfalso; apply Hvalue; reflexivity);
    destruct feedOn; cbn; repeat split; eauto.
Qed.
End ComponentFacts.

(** X19.  The strings of the hour and minute selectors read back as the
    numbers they stand for: for every [i] below 60 the entry is [i] written
    with two digits, [parseInt] of it is [i], it is the [i]-th minute option
    and, below 24, the [i]-th hour option. *)
Theorem time_options_round_trip (i : nat) :
  (i < 60)%nat ->
  let entry := padStart 2 "0" (natToString i) in
  String.length entry = 2%nat
  /\ parseInt entry = Some (Z.of_nat i)
  /\ nth_error minuteOptions i = Some entry
  /\ ((i < 24)%nat -> nth_error hourOptions i = Some entry).
Proof.
  intros Hi. cbv zeta.
  do 60 (destruct i as [|i];
         [repeat split; try (vm_compute; reflexivity);
          intros Hh; try (vm_compute; reflexivity); exfalso; lia|]).
  exfalso. lia.
Qed.

Lemma time_options_round_trip_witness :
  parseInt (padStart 2 "0" (natToString 7)) = Some 7%Z.
Proof.
  exact (proj1 (proj2 (time_options_round_trip 7 ltac:(lia)))).
Defined.

Section Binary64Component.
Import Floats.
Local Open Scope float_scope.
Local Open Scope string_scope.

Lemma fetchDVOLData_rejects_unusable_response_witness :
  promise (fetchDVOLData (num := float) "btc"
             [Opened;
              Message (Some (JObject [("error",
                                       JObject [("message", JString "bad request")])]))
                1700003601000;
              TimerFired])
  = Rejected (ServerError (Value (JString "bad request"))).
Proof.
  refine (proj1 (fetchDVOLData_rejects_unusable_response (num := float) "btc"
                   (JObject [("error", JObject [("message", JString "bad request")])])
                   1700003601000 [TimerFired] _ _)).
  - discriminate.
  - intros first rest. cbn. discriminate.
Defined.


Lemma updateDVOL_stores_feed_value_witness :
  Calculator.volatility
    (fst (Calculator.updateDVOL
            [Opened;
             Message (Some (JObject [("result",
                                      JArray [JArray [JNumber 1700003600000;
                                                      JNumber 45.678]])]))
               1700003601000]
            (Calculator.setUseDVOL true
               (Calculator.setSelectedAsset BTC Calculator.initialForm))))
  = toFixed2 45.678.
Proof.
  exact (proj1 (proj2 (updateDVOL_stores_feed_value (num := float)
           (Calculator.setUseDVOL true
              (Calculator.setSelectedAsset BTC Calculator.initialForm))
           (JObject [("result", JArray [JArray [JNumber 1700003600000;
                                                JNumber 45.678]])])
           (JArray [JNumber 1700003600000; JNumber 45.678]) []
           (JNumber 1700003600000) 45.678 [] 1700003601000 []
           eq_refl eq_refl eq_refl eq_refl))).
Defined.

Lemma asset_selection_resets_volatility_witness :
  Calculator.volatility
    (Calculator.assetChangedEffect
       (fst (Calculator.handleAssetSelection SOL
               (Calculator.setVolatility 55 (Calculator.initialForm (num := float))))))
  = lit 100.
Proof.
  refine (proj2 (proj2 (proj2 (proj2
           (asset_selection_resets_volatility (num := float) SOL
              (Calculator.setVolatility 55 Calculator.initialForm) _))))).
  discriminate.
Defined.
End Binary64Component.

(** ** Binary64: the payoff graph after the spot-price field is cleared *)

Section Binary64ZeroSpot.
Import Floats.
Local Open Scope float_scope.

Lemma SFcompare_finite_refl (m : positive) (e : Z) :
  SFcompare (S754_finite false m e) (S754_finite false m e) = Some Eq.
Proof.
  cbn [SFcompare]. rewrite Z.compare_refl, Pos.compare_cont_refl. reflexivity.
Qed.

Lemma generateData_zero_spot_finite (fuel : nat) (K premium : float)
    (optionType : OptionType) (m : positive) (e : Z) :
  Prim2SF K = S754_finite false m e ->
  generateData fuel 0 K premium optionType = None.
Proof.
  intros E.
  assert (Hsub0 : K - 0 = K).
  { apply FloatAxioms.Prim2SF_inj. rewrite FloatAxioms.sub_spec, E. reflexivity. }
  assert (Hadd0 : K + 0 = K).
  { apply FloatAxioms.Prim2SF_inj. rewrite FloatAxioms.add_spec, E. reflexivity. }
  assert (Hdiag : K - K = 0).
  { apply FloatAxioms.Prim2SF_inj. rewrite FloatAxioms.sub_spec, E.
    change (Prim2SF 0) with (S754_zero false).
    unfold SF64sub, SFsub. rewrite Z.sub_diag. reflexivity. }
  assert (Heq : (K =? K) = true).
  { rewrite FloatAxioms.eqb_spec, E. unfold SFeqb.
    rewrite SFcompare_finite_refl. reflexivity. }
  assert (Hle : (K <=? K) = true).
  { rewrite FloatAxioms.leb_spec, E. unfold SFleb.
    rewrite SFcompare_finite_refl. reflexivity. }
  assert (Hlt : (0 <? K) = true).
  { rewrite FloatAxioms.ltb_spec, E. reflexivity. }
  assert (Hmax : Binary64.max 0 K = K).
  { unfold Binary64.max. unfold is_nan at 2. rewrite Heq, Hlt. reflexivity. }
  unfold generateData.
  change (nmul 0 (lit 0.75)) with 0.
  change (nsub K 0) with (K - 0). change (nadd K 0) with (K + 0).
  rewrite Hsub0, Hadd0.
  change (Math_max (lit 0) K) with (Binary64.max 0 K). rewrite Hmax.
  change (nsub K K) with (K - K). rewrite Hdiag.
  change (ndiv 0 (lit 100)) with 0.
  apply generateData_loop_stuck; [exact Hle | exact Hadd0].
Qed.

Lemma generateData_zero_spot_zero (fuel : nat) (K premium : float)
    (optionType : OptionType) (s : bool) :
  Prim2SF K = S754_zero s ->
  generateData fuel 0 K premium optionType = None.
Proof.
  intros E.
  assert (HK : K = 0 \/ K = -0).
  { destruct s; [right | left]; apply FloatAxioms.Prim2SF_inj; rewrite E;
      reflexivity. }
  unfold generateData.
  destruct HK as [-> | ->]; apply generateData_loop_stuck; reflexivity.
Qed.

(** X20.  The same on binary64 numbers, for every strike: when the strike in
    the form is at least [0] and below infinity, clearing the spot-price
    field leaves a sampling range that is the strike alone and a step of
    [0], and the loop that builds the data of the payoff graph returns for
    no amount of fuel. *)
Theorem cleared_spot_price_hangs_payoff_graph_binary64 (fuel : nat)
    (st : Calculator.Form (num := float)) :
  (0 <=? Calculator.strikePrice st) = true ->
  (Calculator.strikePrice st <? infinity) = true ->
  Calculator.payoffGraphData fuel (Calculator.onSpotPriceChange EmptyText st)
  = None.
Proof.
  intros Hlow Hhigh.
  unfold Calculator.onSpotPriceChange, Calculator.handleNumericInput,
    Calculator.payoffGraphData.
  cbn [Calculator.setSpotPrice Calculator.spotPrice Calculator.strikePrice
       Calculator.premium Calculator.optionType].
  change (lit 0) with 0.
  rewrite FloatAxioms.leb_spec in Hlow. rewrite FloatAxioms.ltb_spec in Hhigh.
  change (Prim2SF 0) with (S754_zero false) in Hlow.
  change (Prim2SF infinity) with (S754_infinity false) in Hhigh.
  destruct (Prim2SF (Calculator.strikePrice st)) as [s | s | | s m e] eqn:E.
  - eapply generateData_zero_spot_zero. exact E.
  - destruct s; [discriminate Hlow | discriminate Hhigh].
  - discriminate Hlow.
  - destruct s; [discriminate Hlow|].
    eapply generateData_zero_spot_finite. exact E.
Qed.

Lemma cleared_spot_price_hangs_payoff_graph_binary64_witness :
  Calculator.payoffGraphData 1000
    (Calculator.onSpotPriceChange EmptyText (Calculator.initialForm (num := float)))
  = None.
Proof.
  exact (cleared_spot_price_hangs_payoff_graph_binary64 1000
           Calculator.initialForm eq_refl eq_refl).
Defined.
End Binary64ZeroSpot.
